(** * libnmap: range classification, partitioning, validation and command
      construction

    A shallow embedding of [lib/libnmap.js].  JavaScript strings are
    modelled as [string] (code units below 256), arrays as [list], the
    regular expressions of [validation.net] as terms of [regex] that are
    run by a backtracking matcher, and the third-party collaborators
    (cidr-js, deepmerge, hasbin, fs, xml2js) as Section variables. *)

From Stdlib Require Import Bool Arith ZArith Lia List Ascii String DecimalString.
Import ListNotations.

Local Open Scope string_scope.
Local Open Scope list_scope.

(** ** Regular expressions *)

Module Regex.

(** Abstract syntax of the regular expressions the source uses: character
    classes, the assertions [^] and [$], sequence, alternation and the
    greedy star.  Groups only structure the term; none of the patterns
    has a back-reference or a look-around. *)
Inductive regex : Type :=
| Eps : regex
| Class : (ascii -> bool) -> regex
| Bol : regex
| Eol : regex
| Cat : regex -> regex -> regex
| Or : regex -> regex -> regex
| Star : regex -> regex.

(** The loop of a greedy star: one more turn of [body], which must
    consume input, and the continuation when no turn does. *)
Fixpoint star_loop
         (body : bool -> list ascii -> (bool -> list ascii -> bool) -> bool)
         (k : bool -> list ascii -> bool)
         (n : nat) (st : bool) (t : list ascii) {struct n} : bool :=
  match n with
  | O => k st t
  | S n' =>
      if body st t
           (fun st' t' =>
              if (List.length t' <? List.length t)%nat
              then star_loop body k n' st' t' else false)
      then true else k st t
  end.

(** [exec r start s k]: match [r] at the front of the remaining input
    [s]; [start] tells whether no character has been consumed yet (the
    position is 0, where [^] holds without the [m] flag); [k] is the
    continuation, as in the ECMAScript matcher.  Alternatives are tried
    left to right and the star is greedy; a turn of a star must consume
    input, so [length s] turns are enough. *)
Fixpoint exec (r : regex) (start : bool) (s : list ascii)
         (k : bool -> list ascii -> bool) {struct r} : bool :=
  match r with
  | Eps => k start s
  | Class p =>
      match s with
      | c :: s' => if p c then k false s' else false
      | [] => false
      end
  | Bol => if start then k start s else false
  | Eol =>
      match s with
      | [] => k start s
      | _ :: _ => false
      end
  | Cat r1 r2 => exec r1 start s (fun st' s' => exec r2 st' s' k)
  | Or r1 r2 => if exec r1 start s k then true else exec r2 start s k
  | Star r' => star_loop (exec r') k (List.length s) start s
  end.

(** A pattern without the [g] or [y] flag is tried at every index of the
    input, from the left. *)
Fixpoint search (r : regex) (start : bool) (s : list ascii) : bool :=
  if exec r start s (fun _ _ => true) then true
  else match s with
       | [] => false
       | _ :: s' => search r false s'
       end.

(** [RegExp.prototype.test] *)
Definition test (r : regex) (str : string) : bool :=
  search r true (list_ascii_of_string str).

(** What a match is: [matches r st s st' s'] when [r] matches at the front
    of [s], with [st] telling whether [s] is the whole input, and leaves
    [s'], with [st'] telling the same of [s']. *)
Inductive matches : regex -> bool -> list ascii -> bool -> list ascii -> Prop :=
| MEps st s : matches Eps st s st s
| MClass p st c s : p c = true -> matches (Class p) st (c :: s) false s
| MBol s : matches Bol true s true s
| MEol st : matches Eol st [] st []
| MCat r1 r2 st s st1 s1 st2 s2 :
    matches r1 st s st1 s1 -> matches r2 st1 s1 st2 s2 ->
    matches (Cat r1 r2) st s st2 s2
| MOrL r1 r2 st s st' s' :
    matches r1 st s st' s' -> matches (Or r1 r2) st s st' s'
| MOrR r1 r2 st s st' s' :
    matches r2 st s st' s' -> matches (Or r1 r2) st s st' s'
| MStarO r st s : matches (Star r) st s st s
| MStarS r st s st1 s1 st2 s2 :
    matches r st s st1 s1 -> matches (Star r) st1 s1 st2 s2 ->
    matches (Star r) st s st2 s2.

(** *** Pattern syntax *)

Definition code (c : ascii) : nat := nat_of_ascii c.

(** [a-b] *)
Definition between (a b : ascii) (c : ascii) : bool :=
  (code a <=? code c)%nat && (code c <=? code b)%nat.

Definition chr (a : ascii) (c : ascii) : bool := Ascii.eqb a c.

Definition either (p q : ascii -> bool) (c : ascii) : bool := p c || q c.

(** a literal character *)
Definition lit (a : ascii) : regex := Class (chr a).

(** [[a-b]] *)
Definition rng (a b : ascii) : regex := Class (between a b).

(** [\d] *)
Definition digit : regex := rng "0" "9".

(** [\s]: tab, line feed, vertical tab, form feed, carriage return, space
    and no-break space are the white space and line terminators below
    code 256. *)
Definition is_space (c : ascii) : bool :=
  let n := code c in
  ((9 <=? n) && (n <=? 13) || (n =? 32) || (n =? 160))%nat.

Definition space : regex := Class is_space.

(** [.]: any character but a line terminator *)
Definition dot : regex :=
  Class (fun c => negb ((code c =? 10) || (code c =? 13))%nat).

(** a literal string *)
Fixpoint str (s : string) : regex :=
  match s with
  | EmptyString => Eps
  | String c s' => Cat (lit c) (str s')
  end.

(** [r?] *)
Definition opt (r : regex) : regex := Or r Eps.

(** [r+] *)
Definition plus (r : regex) : regex := Cat r (Star r).

(** [r{n}] *)
Fixpoint times (n : nat) (r : regex) : regex :=
  match n with
  | O => Eps
  | S n' => Cat r (times n' r)
  end.

(** [r{0,n}] *)
Fixpoint upto (n : nat) (r : regex) : regex :=
  match n with
  | O => Eps
  | S n' => opt (Cat r (upto n' r))
  end.

(** [r{m,n}] *)
Definition rep (m n : nat) (r : regex) : regex :=
  Cat (times m r) (upto (n - m) r).

Declare Scope regex_scope.
Delimit Scope regex_scope with re.
Bind Scope regex_scope with regex.
Infix ">>" := Cat (at level 40, left associativity) : regex_scope.
Infix "|||" := Or (at level 50, left associativity) : regex_scope.

End Regex.

(** ** The patterns of [validation.net] *)

Module Net.
Import Regex.
Local Open Scope regex_scope.
Local Open Scope char_scope.

(** [(?:[1-9][0-9]{0,3}|[1-5][0-9]{4}|6(?:[0-4][0-9]{3}|5(?:[0-4][0-9]{2}|5(?:[0-2][0-9]|3[0-5]))))] *)
Definition port_number : regex :=
  rng "1" "9" >> rep 0 3 (rng "0" "9")
  ||| rng "1" "5" >> times 4 (rng "0" "9")
  ||| lit "6" >> (rng "0" "4" >> times 3 (rng "0" "9")
                  ||| lit "5" >> (rng "0" "4" >> times 2 (rng "0" "9")
                                  ||| lit "5" >> (rng "0" "2" >> rng "0" "9"
                                                  ||| lit "3" >> rng "0" "5"))).

(** [ports]: [^(?:(?:^|[-,])(?:port_number))+$] *)
Definition ports : regex :=
  Bol >> plus ((Bol ||| Class (either (chr "-") (chr ","))) >> port_number) >> Eol.

Definition alpha : ascii -> bool := either (between "a" "z") (between "A" "Z").
Definition alnum : ascii -> bool := either alpha (between "0" "9").
Definition alnum_dash : ascii -> bool := either alnum (chr "-").

(** [([a-zA-Z]|[a-zA-Z][a-zA-Z0-9\-]*[a-zA-Z0-9])] *)
Definition label : regex :=
  Class alpha ||| Class alpha >> Star (Class alnum_dash) >> Class alnum.

(** [hostname]: [^((label)\.)*(label)|localhost$]; the alternation is at
    the top level, so [^] belongs to the left branch only and [$] to the
    right one. *)
Definition hostname : regex :=
  Bol >> Star (label >> lit ".") >> label
  ||| str "localhost" >> Eol.

(** [([0-9]|[1-9][0-9]|1[0-9]{2}|2[0-4][0-9]|25[0-5])] *)
Definition octet : regex :=
  rng "0" "9"
  ||| rng "1" "9" >> rng "0" "9"
  ||| lit "1" >> times 2 (rng "0" "9")
  ||| lit "2" >> rng "0" "4" >> rng "0" "9"
  ||| str "25" >> rng "0" "5".

(** [((octet)\.){3}(octet)] *)
Definition quad : regex := times 3 (octet >> lit ".") >> octet.

(** [IPv4]: [^((octet)\.){3}(octet)$] *)
Definition IPv4 : regex := Bol >> quad >> Eol.

(** [IPv4CIDR]: [((octet)\.){3}(octet)(\/([1-2]\d|3[0-2]|\d))], with no
    anchor at either end. *)
Definition IPv4CIDR : regex :=
  quad >> (lit "/" >> (rng "1" "2" >> digit ||| lit "3" >> rng "0" "2" ||| digit)).

(** [IPv4Range]: [^((octet)\.){3}(octet)\-(octet)$] *)
Definition IPv4Range : regex := Bol >> quad >> lit "-" >> octet >> Eol.

(** [[0-9A-Fa-f]{1,4}] *)
Definition h16 : regex :=
  rep 1 4 (Class (either (between "0" "9")
                    (either (between "A" "F") (between "a" "f")))).

(** [([0-9A-Fa-f]{1,4}:)] *)
Definition h16c : regex := h16 >> lit ":".

(** [(:[0-9A-Fa-f]{1,4})] *)
Definition ch16 : regex := lit ":" >> h16.

(** [(25[0-5]|2[0-4]\d|1\d\d|[1-9]?\d)] *)
Definition dec8 : regex :=
  str "25" >> rng "0" "5"
  ||| lit "2" >> rng "0" "4" >> digit
  ||| lit "1" >> digit >> digit
  ||| opt (rng "1" "9") >> digit.

(** [((dec8)(\.(dec8)){3})] *)
Definition v4tail : regex := dec8 >> times 3 (lit "." >> dec8).

(** The eight alternatives shared by [IPv6] and [IPv6CIDR], by the number
    of leading [h16:] groups, from seven down to none. *)
Definition v6body : regex :=
  times 7 h16c >> (h16 ||| lit ":")
  ||| times 6 h16c >> (ch16 ||| v4tail ||| lit ":")
  ||| times 5 h16c >> (rep 1 2 ch16 ||| lit ":" >> v4tail ||| lit ":")
  ||| times 4 h16c >> (rep 1 3 ch16 ||| opt ch16 >> lit ":" >> v4tail ||| lit ":")
  ||| times 3 h16c >> (rep 1 4 ch16 ||| rep 0 2 ch16 >> lit ":" >> v4tail ||| lit ":")
  ||| times 2 h16c >> (rep 1 5 ch16 ||| rep 0 3 ch16 >> lit ":" >> v4tail ||| lit ":")
  ||| times 1 h16c >> (rep 1 6 ch16 ||| rep 0 4 ch16 >> lit ":" >> v4tail ||| lit ":")
  ||| lit ":" >> (rep 1 7 ch16 ||| rep 0 5 ch16 >> lit ":" >> v4tail ||| lit ":").

(** [(%.+)?] *)
Definition zone : regex := opt (lit "%" >> plus dot).

(** [IPv6]: [^\s*(v6body)(%.+)?\s*], with no [$]. *)
Definition IPv6 : regex := Bol >> Star space >> v6body >> zone >> Star space.

(** [IPv6CIDR]: [^\s*(v6body)(%.+)?\s*(\/(\d|\d\d|1[0-1]\d|12[0-8]))$] *)
Definition IPv6CIDR : regex :=
  Bol >> Star space >> v6body >> zone >> Star space
  >> (lit "/" >> (digit ||| digit >> digit
                  ||| lit "1" >> rng "0" "1" >> digit
                  ||| str "12" >> rng "0" "8"))
  >> Eol.

(** [/discover/] *)
Definition discover : regex := str "discover".

End Net.


(** ** JavaScript values and library functions *)

(** [Array.prototype.join] *)
Definition join (sep : string) (l : list string) : string := String.concat sep l.

(** [Array.prototype.slice(from, to)] for [0 <= from <= to] *)
Definition slice {A : Type} (l : list A) (from to : nat) : list A :=
  firstn (to - from) (skipn from l).

(** [String.prototype.split(' ')] *)
Fixpoint split_spaces (s : string) : list string :=
  match s with
  | EmptyString => [EmptyString]
  | String c s' =>
      if Ascii.eqb c " " then EmptyString :: split_spaces s'
      else match split_spaces s' with
           | w :: ws => String c w :: ws
           | [] => [String c EmptyString]
           end
  end.

(** The string a template literal gives for an integral number. *)
Definition number_to_string (z : Z) : string :=
  NilZero.string_of_int (Z.to_int z).

(** [Math.round(n / d)] on integers, [d <> 0]: the floor of [n/d + 1/2].
    ([n / 0] is [Infinity] or [NaN] in the source; [round_div n 0 = 0]
    here, and both make [network.range] return the single joined block.) *)
Definition round_div (n d : Z) : Z := ((2 * n + d) / (2 * d))%Z.

(** A call [f(a, extra)] of a function declared with one parameter: the
    surplus argument is dropped. *)
Definition call1 {A B C : Type} (f : A -> B) (a : A) (_ : C) : B := f a.

(** [new Error(message)] *)
Inductive js_error : Type := Error (message : string).

(** The option monad carries the loops that need fuel. *)
Definition bind {A B : Type} (m : option A) (f : A -> option B) : option B :=
  match m with
  | Some a => f a
  | None => None
  end.

Notation "x <- m ;; k" := (bind m (fun x => k))
  (at level 61, m at next level, right associativity).

(** The options object after the merge with [defaults]; [called] is the
    string [caller.getData().functionName] of caller-id, which the file,
    in strict mode, gets as [getData] for [scan] and [discover] alike. *)
Module Opts.
Record t : Type := mk {
  nmap : string;
  verbose : bool;
  ports : string;
  range : list string;
  timeout : Z;
  blocksize : Z;
  threshold : Z;
  flags : list string;
  udp : bool;
  json : bool;
  called : string
}.

Definition with_range (o : t) (r : list string) : t :=
  mk (nmap o) (verbose o) (ports o) r (timeout o) (blocksize o)
     (threshold o) (flags o) (udp o) (json o) (called o).

Definition with_nmap (o : t) (n : string) : t :=
  mk n (verbose o) (ports o) (range o) (timeout o) (blocksize o)
     (threshold o) (flags o) (udp o) (json o) (called o).

Definition with_ports_flags (o : t) (p : string) (f : list string) : t :=
  mk (nmap o) (verbose o) p (range o) (timeout o) (blocksize o)
     (threshold o) f (udp o) (json o) (called o).
End Opts.

Definition options : Type := Opts.t.

(** [defaults], with the number of CPUs of the host as a parameter. *)
Definition defaults (cpus : Z) : options :=
  Opts.mk "nmap" false "1-1024" [] 120 16 (cpus * 4) ["-T4"] false true "".

(** ** [validation] *)

Module validation.

Definition verErr : string :=
  "Discover method requires nodejs v0.11.2 or greater".

Definition pathErr : string := "Supplied path for nmap binary is invalid".

Definition blockErr : string := "Supplied blocksize must not exceed 128".

Definition rangeErr : string :=
  "Range must be an array of host(s). Examples: " ++
  "192.168.2.10 (single), 10.0.2.0/24 (CIDR), 10.0.10.5-20 (range)".

Definition portErr : string :=
  "Port(s) must match one of the following examples: " ++
  "512 (single) | 0-65535 (range) | 10-30,80,443,3306-10000 (multiple)".

Definition test (regex : Regex.regex) (str : string) : bool :=
  Regex.test regex str.

(** [verify(host, cb)]: [inr true] stands for [cb(null, true)], [inl e]
    for [cb(e)]. *)
Definition verify (host : string) : js_error + bool :=
  if test Net.hostname host
     || test Net.IPv4 host
     || test Net.IPv6 host
     || test Net.IPv4CIDR host
     || test Net.IPv6CIDR host
     || test Net.IPv4Range host
  then inr true
  else inl (Error ("Supplied host (" ++ host ++ ") did not pass validation. "
                   ++ rangeErr)).

Section Init.

(** [hasbin.sync]: does the name resolve on the search path? *)
Variable hasbin_sync : string -> bool.

(** [fs.access(path, F_OK|X_OK, cb)]: [true] when [cb] gets no error. *)
Variable fs_access : string -> bool.

(** [exists(path)] *)
Definition exists_ (path : string) : bool := hasbin_sync path.

(** The function [init] hands to [exists] as a second argument: when the
    name did not resolve and [fs.access] reports an error, it pushes the
    path error (and calls [cb] with what [push] returns). *)
Definition on_exists (opts : options) (result : bool)
           (errors : list js_error) : list js_error :=
  if negb result then
    if fs_access (Opts.nmap opts) then errors
    else errors ++ [Error pathErr]
  else errors.

(** The [forEach] over [opts.range] with [verify]: every error is pushed,
    and the loop goes on. *)
Definition verify_all (range : list string) (errors : list js_error)
  : list js_error :=
  fold_left
    (fun errors value =>
       match verify value with
       | inl err => errors ++ [err]
       | inr _ => errors
       end)
    range errors.

(** [init(opts, cb)]: [inl errors] stands for [cb(errors)], [inr true] for
    [cb(null, true)].  [opts.range] is a list here, so of the three tests
    on it only the one on its length can hold. *)
Definition init (opts : options) : list js_error + bool :=
  let errors : list js_error := [] in
  let _ := call1 exists_ (Opts.nmap opts) (on_exists opts) in
  let errors :=
    if (128 <? Opts.blocksize opts)%Z then errors ++ [Error blockErr]
    else errors in
  let errors :=
    if negb (test Net.discover (Opts.called opts)) then
      let errors :=
        if (List.length (Opts.range opts) =? 0)%nat
        then errors ++ [Error rangeErr] else errors in
      if (1 <=? List.length (Opts.range opts))%nat
      then verify_all (Opts.range opts) errors else errors
    else errors in
  let errors :=
    if negb (String.eqb (Opts.ports opts) "") then
      if negb (test Net.ports (Opts.ports opts))
      then errors ++ [Error portErr] else errors
    else errors in
  if (0 <? List.length errors)%nat then inl errors else inr true.

End Init.

End validation.

(** ** [reporting] *)

Module reporting.

(** The error object [child_process.exec] hands to its callback: it has an
    own property [code]; [text] is what [String(err)] gives. *)
Record exec_error : Type := { code : Z; text : string }.

(** The second argument of [reports]: the error object of the process, or
    the array of captured chunks. *)
Inductive report : Type :=
| Failed (err : exec_error)
| Chunks (chunks : list string).

Section Reports.

(** The type of the structured scan-run node. *)
Variable node : Type.

(** xml2js: [parseString] followed by the projection [.nmaprun]; [inl]
    carries the text of the parser's error. *)
Variable parse_nmaprun : string -> string + node.

Inductive scan_report : Type :=
| Xml (text : string)
| Json (nmaprun : node).

(** What the callback of a unit is called with: [cb(err)] or
    [cb(null, data)]. *)
Inductive completion : Type :=
| Err (e : js_error)
| Ok (data : scan_report).

(** [reports(opts, report, cb)] *)
Definition reports (opts : options) (r : report) : completion :=
  match r with
  | Failed err => Err (Error (text err))
  | Chunks chunks =>
      let xml := join "" chunks in
      if negb (Opts.json opts) then Ok (Xml xml)
      else match parse_nmaprun xml with
           | inl err => Err (Error err)
           | inr nmaprun => Ok (Json nmaprun)
           end
  end.

End Reports.

Arguments Xml {node} text.
Arguments Json {node} nmaprun.
Arguments Err {node} e.
Arguments Ok {node} data.

End reporting.

(** ** [tools] *)

Module tools.

(** [chunk(obj, offset)]: the [for] loop, [idx] going up by [offset]; it
    does not end when [offset] is 0 and [obj] is not empty, so the loop
    takes fuel and [None] is the loop still running. *)
Fixpoint chunk_loop (fuel : nat) (obj : list string) (offset idx : nat)
         (tarray : list string) : option (list string) :=
  if (idx <? List.length obj)%nat then
    match fuel with
    | O => None
    | S fuel' =>
        chunk_loop fuel' obj offset (idx + offset)
          (tarray ++ [join " " (slice obj idx (idx + offset))])
    end
  else Some tarray.

Definition chunk (obj : list string) (offset : nat) : option (list string) :=
  chunk_loop (List.length obj) obj offset 0 [].

(** [command(opts, block)] *)
Definition command (opts : options) (block : string) : string :=
  let flags := join " " (Opts.flags opts) in
  let ipv6 := if validation.test Net.IPv6 block then " -6 " else " " in
  let proto := if Opts.udp opts then " -sU" else " " in
  let to :=
    ("--host-timeout=" ++ number_to_string (Opts.timeout opts) ++ "s ")%string in
  if negb (String.eqb (Opts.ports opts) "") then
    ((Opts.nmap opts ++ proto) ++ " " ++ to ++ flags ++ ipv6
       ++ "-p" ++ Opts.ports opts ++ " " ++ block)%string
  else
    ((Opts.nmap opts ++ proto) ++ " " ++ to ++ flags ++ ipv6 ++ block)%string.

(** *** The unit [funcs] builds for a block

    The function stored under a block starts the process and registers
    four handlers.  The unit is modelled by what the handlers do to the
    array [report] and by the calls of [callback] so far, in order. *)

Inductive event : Type :=
| StdoutData (chunk : string)
| StderrData (chunk : string)
| StdoutEnd
| Exit (err : option reporting.exec_error).

Section Unit.

Variable node : Type.
Variable parse_nmaprun : string -> string + node.

Record unit_state : Type := {
  report : list string;
  calls : list (reporting.completion node)
}.

(** [block(callback)] up to the first event: the command it runs, and the
    empty [report]. *)
Definition block (opts : options) (range : string) : string * unit_state :=
  (command opts range, {| report := []; calls := [] |}).

Definition handle (opts : options) (u : unit_state) (e : event) : unit_state :=
  match e with
  | Exit (Some err) =>
      {| report := report u;
         calls := calls u
                  ++ [reporting.reports node parse_nmaprun opts
                        (reporting.Failed err)] |}
  | Exit None => u
  | StderrData _ => u
  | StdoutData chunk => {| report := report u ++ [chunk]; calls := calls u |}
  | StdoutEnd =>
      if (0 <? List.length (report u))%nat then
        {| report := report u;
           calls := calls u
                    ++ [reporting.reports node parse_nmaprun opts
                          (reporting.Chunks (report u))] |}
      else u
  end.

Definition run (opts : options) (u : unit_state) (events : list event)
  : unit_state :=
  fold_left (handle opts) events u.

End Unit.

Arguments report {node} u.
Arguments calls {node} u.

End tools.

(** ** [network] *)

Module network.

Section Network.

(** cidr-js: [cidr.list(host)], the addresses of a CIDR block in order,
    for the hosts it enumerates.  On a host with a prefix over 32 it
    gives [null] and [range] throws at [blocks.length]: such hosts are
    outside these definitions. *)
Variable cidr_list : string -> list string.

(** deepmerge on two arrays of strings. *)
Variable merge : list string -> list string -> list string.

(** [range(opts, host)] *)
Definition range (opts : options) (host : string) : option (list string) :=
  let blocks := cidr_list host in
  let splitat :=
    round_div (Z.of_nat (List.length blocks)) (Opts.blocksize opts) in
  let results : list string := [] in
  let splitat :=
    if (256 <? splitat)%Z then round_div splitat 255 else splitat in
  if (1 <? splitat)%Z then
    tarray <- tools.chunk blocks (Z.to_nat splitat) ;;
    Some (fold_left (fun results block => results ++ [block]) tarray results)
  else Some (results ++ [join " " blocks]).

(** One turn of the [forEach] of [calculate] on [results] and [tresults]. *)
Definition visit (opts : options)
           (acc : list string * list (list string)) (host : string)
  : option (list string * list (list string)) :=
  let '(results, tresults) := acc in
  let tests := validation.test in
  if tests Net.hostname host || tests Net.IPv4 host || tests Net.IPv6 host
  then Some (results ++ [host], tresults)
  else if tests Net.IPv4CIDR host
  then blocks <- range opts host ;; Some (results, tresults ++ [blocks])
  else if tests Net.IPv4Range host
  then Some (results ++ [host], tresults)
  else if tests Net.IPv6CIDR host
  then Some (results ++ [host], tresults)
  else Some (results, tresults).

Fixpoint visit_all (opts : options) (hosts : list string)
         (acc : list string * list (list string))
  : option (list string * list (list string)) :=
  match hosts with
  | [] => Some acc
  | host :: hosts' => acc' <- visit opts acc host ;; visit_all opts hosts' acc'
  end.

(** [calculate(opts)] *)
Definition calculate (opts : options) : option (list string) :=
  acc <- visit_all opts (Opts.range opts) ([], []) ;;
  let '(results, tresults) := acc in
  match tresults with
  | first :: _ => Some (merge results first)
  | [] => Some results
  end.

End Network.

End network.

(** ** [config] *)

Module config.

Section Config.

Variable hasbin_sync : string -> bool.
Variable fs_access : string -> bool.
Variable cidr_list : string -> list string.
Variable merge : list string -> list string -> list string.

(** [tools.adapters(opts)]: the CIDR blocks of the external interfaces of
    the host, [None] for [false]. *)
Variable adapters : options -> option (list string).

(** What [cb] is called with. *)
Inductive settings : Type :=
| Invalid (errors : list js_error)
| Refused (e : js_error)
| Ready (opts : options).

(** [init(defaults, opts, cb)] from the call of [validation.init] on, on
    the merged options; [None] is [network.calculate] still running. *)
Definition init (opts : options) : option settings :=
  match validation.init hasbin_sync fs_access opts with
  | inl err => Some (Invalid err)
  | inr _ =>
      let discover := validation.test Net.discover (Opts.called opts) in
      match (if discover then adapters opts else Some (Opts.range opts)) with
      | None => Some (Refused (Error validation.verErr))
      | Some range =>
          let opts := Opts.with_range opts range in
          let opts :=
            if discover
            then Opts.with_ports_flags opts "" ["-n"; "-oX -"; "-sn"; "-PR"]
            else opts in
          range <- network.calculate cidr_list merge opts ;;
          Some (Ready (Opts.with_range opts range))
      end
  end.

End Config.

End config.

(** ** Definitions used to state the properties *)

(** No space occurs in the string. *)
Fixpoint spaceless (s : string) : bool :=
  match s with
  | EmptyString => true
  | String c s' => negb (Ascii.eqb c " ") && spaceless s'
  end.

(** The consecutive groups of [g] elements of [l], the last one possibly
    shorter. *)
Fixpoint pieces {A : Type} (fuel g : nat) (l : list A) : list (list A) :=
  match fuel with
  | O => []
  | S fuel' =>
      match l with
      | [] => []
      | _ :: _ => firstn g l :: pieces fuel' g (skipn g l)
      end
  end.

(** [n / g] rounded up *)
Definition ceil_div (n g : nat) : nat := (n + g - 1) / g.

(** The number [network.range] computes in [splitat]. *)
Definition splitat (count : nat) (blocksize : Z) : Z :=
  let s := round_div (Z.of_nat count) blocksize in
  if (256 <? s)%Z then round_div s 255 else s.

(** The addresses [prefix0] to [prefix<count - 1>]. *)
Definition hosts_of (prefix : string) (count : nat) : list string :=
  map (fun k => (prefix ++ number_to_string (Z.of_nat k))%string) (seq 0 count).

(** What cidr-js gives on the three blocks the examples use: every
    address of the block, from its base address on, the network and the
    broadcast address included.  No statement evaluates it on another
    block. *)
Definition cidr_list_sample (host : string) : list string :=
  if String.eqb host "10.0.0.0/24" then hosts_of "10.0.0." 256
  else if String.eqb host "10.0.0.0/30" then hosts_of "10.0.0." 4
  else if String.eqb host "10.0.1.0/30" then hosts_of "10.0.1." 4
  else [].

(** The options of a call: [defaults] with the flag [-oX -] added, the
    given range, block size and ports, and the name caller-id reports in
    [called]. *)
Definition scan_options (range : list string) (blocksize : Z) (ports : string)
  : options :=
  Opts.mk "nmap" false ports range 120 blocksize 16 ["-T4"; "-oX -"]
          false true "getData".

(** The six patterns [validation.verify] accepts. *)
Definition recognized (host : string) : bool :=
  validation.test Net.hostname host
  || validation.test Net.IPv4 host
  || validation.test Net.IPv6 host
  || validation.test Net.IPv4CIDR host
  || validation.test Net.IPv6CIDR host
  || validation.test Net.IPv4Range host.

(** The error [validation.verify] makes for a host. *)
Definition host_error (host : string) : js_error :=
  Error ("Supplied host (" ++ host ++ ") did not pass validation. "
         ++ validation.rangeErr).

(** The errors of the entries of a range that no pattern accepts, in the
    order of the entries. *)
Definition host_errors (range : list string) : list js_error :=
  map host_error (filter (fun host => negb (recognized host)) range).

(** The width of the blocks of [network.range]. *)
Definition block_width (count : nat) (blocksize : Z) : nat :=
  if (1 <? splitat count blocksize)%Z
  then Z.to_nat (splitat count blocksize) else count.

(** The errors [validation.init] collects, check by check. *)
Definition block_errors (opts : options) : list js_error :=
  if (128 <? Opts.blocksize opts)%Z then [Error validation.blockErr] else [].

Definition range_errors (opts : options) : list js_error :=
  if validation.test Net.discover (Opts.called opts) then []
  else (match Opts.range opts with
        | [] => [Error validation.rangeErr]
        | _ :: _ => []
        end) ++ host_errors (Opts.range opts).

Definition port_errors (opts : options) : list js_error :=
  if String.eqb (Opts.ports opts) "" then []
  else if validation.test Net.ports (Opts.ports opts) then []
       else [Error validation.portErr].

Definition init_errors (opts : options) : list js_error :=
  block_errors opts ++ range_errors opts ++ port_errors opts.

(** The errors of the [Exit] events of a run, in order. *)
Fixpoint exit_errors (events : list tools.event) : list reporting.exec_error :=
  match events with
  | [] => []
  | tools.Exit (Some err) :: events' => err :: exit_errors events'
  | _ :: events' => exit_errors events'
  end.

(** The categories of the entries of a range, in the order in which the
    [switch] of [network.calculate] tries them. *)
Module Category.
Inductive t : Type :=
| Hostname | IPv4 | IPv6 | IPv4CIDR | IPv4Range | IPv6CIDR | Invalid.
End Category.

Definition classify (host : string) : Category.t :=
  if validation.test Net.hostname host then Category.Hostname
  else if validation.test Net.IPv4 host then Category.IPv4
  else if validation.test Net.IPv6 host then Category.IPv6
  else if validation.test Net.IPv4CIDR host then Category.IPv4CIDR
  else if validation.test Net.IPv4Range host then Category.IPv4Range
  else if validation.test Net.IPv6CIDR host then Category.IPv6CIDR
  else Category.Invalid.

(** Entries that are their own block. *)
Definition emitted_unchanged (hosts : list string) : list string :=
  filter (fun host =>
            match classify host with
            | Category.IPv4CIDR | Category.Invalid => false
            | _ => true
            end) hosts.

(** Entries that go to the partitioner. *)
Definition cidr_entries (hosts : list string) : list string :=
  filter (fun host =>
            match classify host with
            | Category.IPv4CIDR => true
            | _ => false
            end) hosts.

Section Partition.

Variable cidr_list : string -> list string.

(** The blocks of a CIDR entry: the enumeration cut every [splitat]
    addresses, or in one piece. *)
Definition partition (opts : options) (host : string) : list string :=
  let blocks := cidr_list host in
  let g := splitat (List.length blocks) (Opts.blocksize opts) in
  if (1 <? g)%Z
  then map (join " ") (pieces (List.length blocks) (Z.to_nat g) blocks)
  else [join " " blocks].

(** The output the specification asks of the classifier: every entry
    replaced, at its place, by its blocks. *)
Definition spliced (opts : options) (hosts : list string) : list string :=
  flat_map (fun host =>
              match classify host with
              | Category.IPv4CIDR => partition opts host
              | Category.Invalid => []
              | _ => [host]
              end) hosts.

End Partition.

(** ** The rest of [tools] and [config] *)

(** *** [tools.flatten]

    The elements of an array: an array, or any other value. *)
#[warnings="-register-all"] Inductive value : Type :=
| Leaf (s : string)
| Nested (items : list value).

(** [flatten(arr, obj)] on the array [arr]: the loop pushes the elements
    that are not arrays, and returns from the function with the call on
    the first element that is one.  ([obj] is not used.) *)
Fixpoint flatten_array (arr : value) : list string :=
  match arr with
  | Leaf _ => []
  | Nested items =>
      (fix loop (items : list value) (result : list string) : list string :=
         match items with
         | [] => result
         | Leaf s :: rest => loop rest (result ++ [s])
         | (Nested _ as inner) :: _ => flatten_array inner
         end) items []
  end.

Definition flatten (arr : list value) : list string :=
  flatten_array (Nested arr).

(** *** [tools.funcs]

    The own properties of an object with string keys, in the order of
    their creation.  An assignment to an existing key replaces its value;
    an assignment of a function to [__proto__] sets the prototype and
    creates no property. *)
Definition object (V : Type) : Type := list (string * V).

Fixpoint set {V : Type} (o : object V) (key : string) (v : V) : object V :=
  match o with
  | [] => [(key, v)]
  | (k, w) :: o' =>
      if String.eqb k key then (k, v) :: o' else (k, w) :: set o' key v
  end.

Definition assign {V : Type} (o : object V) (key : string) (v : V)
  : object V :=
  if String.eqb key "__proto__" then o else set o key v.

Fixpoint get {V : Type} (o : object V) (key : string) : option V :=
  match o with
  | [] => None
  | (k, w) :: o' => if String.eqb k key then Some w else get o' key
  end.

Definition keys {V : Type} (o : object V) : list string := map fst o.

(** [funcs(opts)]: the error it returns on an empty range, or the object
    with one function for each block, stored under the block.  A function
    stands here as the command it runs when it is called. *)
Definition funcs (opts : options) : js_error + object string :=
  if (List.length (Opts.range opts) <=? 0)%nat
  then inl (Error "Range of hosts could not be created")
  else inr (fold_left
              (fun funcs range => assign funcs range (tools.command opts range))
              (Opts.range opts) []).

(** *** [tools.adapters] *)

(** An entry of [os.networkInterfaces()]; [netmask] is [None] when the
    property is missing. *)
Record adapter : Type := {
  address : string;
  netmask : option string;
  internal : bool
}.

(** What [adapters] does: it throws, returns [false], or returns the
    array. *)
Inductive adapters_result : Type :=
| Thrown
| ReturnedFalse
| Returned (ret : list string).

Section Adapters.

(** netmask: [new Netmask(s)], as its [base] and its [bitmask] (the
    latter as the template literal prints it); [None] when the
    constructor throws, as it does on a mask it cannot read. *)
Variable netmask_parse : string -> option (string * string).

(** ip-address: [new v6(netmask).subnet], on the constructor [netmask] of
    the module and not on the mask of the adapter: one string, the same
    for every adapter. *)
Variable v6_subnet : string.

(** [substring(1)] *)
Definition substring1 (s : string) : string :=
  match s with
  | EmptyString => EmptyString
  | String _ s' => s'
  end.

(** The string pushed for an adapter with the mask [subnet]; [None] when
    the constructor of netmask throws. *)
Definition adapter_cidr (a : adapter) (subnet : string) : option string :=
  if validation.test Net.IPv6 subnet then
    Some (address a ++ "/" ++ substring1 v6_subnet)%string
  else
    match netmask_parse (address a ++ "/" ++ subnet)%string with
    | Some (base, bitmask) => Some (base ++ "/" ++ bitmask)%string
    | None => None
    end.

(** The inner loop, over the entries of one interface. *)
Fixpoint devices (devs : list adapter) (ret : list string)
  : adapters_result :=
  match devs with
  | [] => Returned ret
  | a :: devs' =>
      if negb (internal a) then
        match netmask a with
        | None => ReturnedFalse
        | Some subnet =>
            if String.eqb subnet "" then ReturnedFalse
            else match adapter_cidr a subnet with
                 | Some cidr => devices devs' (ret ++ [cidr])
                 | None => Thrown
                 end
        end
      else devices devs' ret
  end.

(** The outer loop, over the interfaces. *)
Fixpoint interfaces (ifaces : list (string * list adapter))
         (ret : list string) : adapters_result :=
  match ifaces with
  | [] => Returned ret
  | (_, devs) :: ifaces' =>
      match devices devs ret with
      | Returned ret' => interfaces ifaces' ret'
      | other => other
      end
  end.

(** [adapters(obj)] on the interfaces of the host. *)
Definition adapters (ifaces : list (string * list adapter))
  : adapters_result :=
  interfaces ifaces [].

End Adapters.

(** *** [config.init] before the validation *)

(** What [typeof] gives. *)
Inductive js_type : Type :=
| TUndefined | TObject | TBoolean | TNumber | TBigint | TString | TSymbol
| TFunction.

Definition typeof_name (t : js_type) : string :=
  match t with
  | TUndefined => "undefined"
  | TObject => "object"
  | TBoolean => "boolean"
  | TNumber => "number"
  | TBigint => "bigint"
  | TString => "string"
  | TSymbol => "symbol"
  | TFunction => "function"
  end.

(** [/array/.test(typeof opts.flags)], the test that guards the
    replacement of [defaults.flags]. *)
Definition flags_override (t : js_type) : bool :=
  validation.test (Regex.str "array") (typeof_name t).

(** [if (opts.flags.indexOf('-oX -') === -1) opts.flags.push('-oX -')] *)
Definition ensure_xml (flags : list string) : list string :=
  if existsb (String.eqb "-oX -") flags then flags else flags ++ ["-oX -"].

(** The options [validation.init] is called with. *)
Definition prepare (opts : options) (called : string) : options :=
  Opts.mk (Opts.nmap opts) (Opts.verbose opts) (Opts.ports opts)
          (Opts.range opts) (Opts.timeout opts) (Opts.blocksize opts)
          (Opts.threshold opts) (ensure_xml (Opts.flags opts))
          (Opts.udp opts) (Opts.json opts) called.

(** ** Shapes of patterns *)

Module Shape.
Import Regex.

(** No [$] in the pattern. *)
Fixpoint eol_free (r : regex) : bool :=
  match r with
  | Eol => false
  | Cat r1 r2 | Or r1 r2 => eol_free r1 && eol_free r2
  | Star r' => eol_free r'
  | _ => true
  end.

(** No [^] in the pattern. *)
Fixpoint bol_free (r : regex) : bool :=
  match r with
  | Bol => false
  | Cat r1 r2 | Or r1 r2 => bol_free r1 && bol_free r2
  | Star r' => bol_free r'
  | _ => true
  end.

(** The pattern starts with [^]. *)
Fixpoint bol_led (r : regex) : bool :=
  match r with
  | Bol => true
  | Cat r1 _ => bol_led r1
  | _ => false
  end.

(** The pattern ends with [$]. *)
Fixpoint eol_ended (r : regex) : bool :=
  match r with
  | Eol => true
  | Cat _ r2 => eol_ended r2
  | _ => false
  end.

(** The 256 characters. *)
Definition all_ascii : list ascii := map ascii_of_nat (seq 0 256).

(** Every class of the pattern is within the set [allowed]. *)
Fixpoint within (allowed : ascii -> bool) (r : regex) : bool :=
  match r with
  | Class p => forallb (fun c => implb (p c) (allowed c)) all_ascii
  | Cat r1 r2 | Or r1 r2 => within allowed r1 && within allowed r2
  | Star r' => within allowed r'
  | _ => true
  end.

End Shape.

(** The characters of a port specification: digits, comma and dash. *)
Definition port_char (c : ascii) : bool :=
  Regex.between "0" "9" c || Regex.chr "," c || Regex.chr "-" c.

(** The characters of an IPv4 address or range: digits, dot and dash. *)
Definition ipv4_char (c : ascii) : bool :=
  Regex.between "0" "9" c || Regex.chr "." c || Regex.chr "-" c.

(** The chunks of the [StdoutData] events of a run, in order. *)
Fixpoint stdout_chunks (events : list tools.event) : list string :=
  match events with
  | [] => []
  | tools.StdoutData chunk :: events' => chunk :: stdout_chunks events'
  | _ :: events' => stdout_chunks events'
  end.

(** The events that are not [StderrData]. *)
Definition without_stderr (events : list tools.event) : list tools.event :=
  filter (fun e => match e with
                   | tools.StderrData _ => false
                   | _ => true
                   end) events.

(** The adapters [tools.adapters] looks at: those that are not internal,
    interface by interface. *)
Definition external_adapters (ifaces : list (string * list adapter))
  : list adapter :=
  filter (fun a => negb (internal a)) (List.concat (map snd ifaces)).

(** [!adapter.netmask] *)
Definition lacks_netmask (a : adapter) : bool :=
  match netmask a with
  | None => true
  | Some subnet => String.eqb subnet ""
  end.

(** The mask of an adapter that has one. *)
Definition mask_of (a : adapter) : string :=
  match netmask a with
  | None => ""
  | Some subnet => subnet
  end.

(** ** Properties *)

Local Open Scope nat_scope.

(** *** The matcher and the matches *)

Section Matcher.
Import Regex.

(** A match leaves a suffix of its input, and the same state when it
    takes no character. *)
Lemma matches_suffix (r : regex) (st : bool) (s : list ascii)
      (st' : bool) (s' : list ascii) :
  matches r st s st' s' ->
  exists w, s = w ++ s' /\ (w = [] -> st' = st).
Proof.
  induction 1 as [st s | p st c s Hp | s | st
                  | r1 r2 st s st1 s1 st2 s2 _ IH1 _ IH2
                  | r1 r2 st s st' s' _ IH | r1 r2 st s st' s' _ IH
                  | r st s | r st s st1 s1 st2 s2 _ IH1 _ IH2].
  - now exists [].
  - exists [c]. split; [reflexivity | discriminate].
  - now exists [].
  - now exists [].
  - destruct IH1 as [w1 [-> H1]], IH2 as [w2 [-> H2]].
    exists (w1 ++ w2). split; [now rewrite app_assoc |].
    intros Hw. apply app_eq_nil in Hw. destruct Hw as [-> ->].
    now rewrite H2, H1.
  - exact IH.
  - exact IH.
  - now exists [].
  - destruct IH1 as [w1 [-> H1]], IH2 as [w2 [-> H2]].
    exists (w1 ++ w2). split; [now rewrite app_assoc |].
    intros Hw. apply app_eq_nil in Hw. destruct Hw as [-> ->].
    now rewrite H2, H1.
Qed.

Lemma matches_shrinks (r : regex) (st : bool) (s : list ascii)
      (st' : bool) (s' : list ascii) :
  matches r st s st' s' ->
  List.length s' < List.length s \/ (st' = st /\ s' = s).
Proof.
  intros H. apply matches_suffix in H. destruct H as [w [-> Hw]].
  destruct w as [|c w].
  - right. split; [now apply Hw | reflexivity].
  - left. rewrite length_app. cbn. lia.
Qed.

Section Star.

Variable r : regex.
Variable body : bool -> list ascii -> (bool -> list ascii -> bool) -> bool.

Hypothesis body_sound :
  forall st s k, body st s k = true ->
                 exists st' s', matches r st s st' s' /\ k st' s' = true.

Hypothesis body_complete :
  forall st s st' s' k, matches r st s st' s' -> k st' s' = true ->
                        body st s k = true.

Lemma star_loop_sound (k : bool -> list ascii -> bool) (n : nat)
      (st : bool) (t : list ascii) :
  star_loop body k n st t = true ->
  exists st' s', matches (Star r) st t st' s' /\ k st' s' = true.
Proof.
  revert st t. induction n as [|n IH]; intros st t H; cbn [star_loop] in H.
  - exists st, t. split; [constructor | exact H].
  - destruct (body st t _) eqn:Hbody.
    + apply body_sound in Hbody. destruct Hbody as [st1 [s1 [Hm Hk]]].
      destruct (List.length s1 <? List.length t); [| discriminate].
      apply IH in Hk. destruct Hk as [st2 [s2 [Hm2 Hk2]]].
      exists st2, s2. split; [econstructor; eassumption | exact Hk2].
    + exists st, t. split; [constructor | exact H].
Qed.

Lemma star_loop_complete (k : bool -> list ascii -> bool)
      (st : bool) (t : list ascii) (st' : bool) (s' : list ascii) :
  matches (Star r) st t st' s' -> k st' s' = true ->
  forall n, List.length t <= n -> star_loop body k n st t = true.
Proof.
  intros Hm. remember (Star r) as R eqn:HR.
  induction Hm as [| | | | | | | r0 st s | r0 st s st1 s1 st2 s2 Hm1 _ Hm2 IH2];
    try discriminate HR; injection HR as ->; intros Hk n Hn.
  - destruct n; cbn [star_loop]; [exact Hk |].
    destruct (body st s _); [reflexivity | exact Hk].
  - destruct (matches_shrinks _ _ _ _ _ Hm1) as [Hlt | [-> ->]].
    + destruct n as [|n]; [lia |]. cbn [star_loop].
      rewrite (body_complete st s st1 s1); [reflexivity | exact Hm1 |].
      replace (List.length s1 <? List.length s) with true
        by (symmetry; apply Nat.ltb_lt; exact Hlt).
      apply IH2; [reflexivity | exact Hk | lia].
    + now apply IH2.
Qed.

End Star.

(** The matcher finds a match that the continuation accepts exactly when
    there is one. *)
Lemma exec_sound (r : regex) :
  forall st s k, exec r st s k = true ->
                 exists st' s', matches r st s st' s' /\ k st' s' = true.
Proof.
  induction r as [| p | | | r1 IH1 r2 IH2 | r1 IH1 r2 IH2 | r IH];
    intros st s k H; cbn [exec] in H.
  - exists st, s. split; [constructor | exact H].
  - destruct s as [|c s]; [discriminate |].
    destruct (p c) eqn:Hp; [| discriminate].
    exists false, s. split; [now constructor | exact H].
  - destruct st; [| discriminate].
    exists true, s. split; [constructor | exact H].
  - destruct s; [| discriminate].
    exists st, []. split; [constructor | exact H].
  - apply IH1 in H. destruct H as [st1 [s1 [Hm1 H]]].
    apply IH2 in H. destruct H as [st2 [s2 [Hm2 H]]].
    exists st2, s2. split; [econstructor; eassumption | exact H].
  - destruct (exec r1 st s k) eqn:H1.
    + apply IH1 in H1. destruct H1 as [st' [s' [Hm Hk]]].
      exists st', s'. split; [now apply MOrL | exact Hk].
    + apply IH2 in H. destruct H as [st' [s' [Hm Hk]]].
      exists st', s'. split; [now apply MOrR | exact Hk].
  - eapply star_loop_sound; eassumption.
Qed.

Lemma exec_complete (r : regex) :
  forall st s st' s' k, matches r st s st' s' -> k st' s' = true ->
                        exec r st s k = true.
Proof.
  induction r as [| p | | | r1 IH1 r2 IH2 | r1 IH1 r2 IH2 | r IH];
    intros st s st' s' k Hm Hk; cbn [exec].
  - inversion Hm; subst. exact Hk.
  - inversion Hm as [| p' st0 c s0 Hp | | | | | | |]; subst.
    rewrite Hp. exact Hk.
  - inversion Hm; subst. exact Hk.
  - inversion Hm; subst. exact Hk.
  - inversion Hm as [| | | | ? ? ? ? st1 s1 ? ? Hm1 Hm2 | | | |]; subst.
    eapply IH1; [exact Hm1 |]. eapply IH2; eassumption.
  - inversion Hm as [| | | | | ? ? ? ? ? ? Hm1 | ? ? ? ? ? ? Hm2 | |]; subst.
    + erewrite IH1 by eassumption. reflexivity.
    + destruct (exec r1 st s k); [reflexivity |]. eapply IH2; eassumption.
  - eapply star_loop_complete; try eassumption. apply le_n.
Qed.

Theorem exec_matches (r : regex) (st : bool) (s : list ascii)
        (k : bool -> list ascii -> bool) :
  exec r st s k = true
  <-> exists st' s', matches r st s st' s' /\ k st' s' = true.
Proof.
  split.
  - apply exec_sound.
  - intros [st' [s' [Hm Hk]]]. eapply exec_complete; eassumption.
Qed.

(** [test] holds exactly when the pattern matches at some index of the
    string. *)
Theorem test_matches (r : regex) (str : string) :
  test r str = true
  <-> exists before after st' s',
        list_ascii_of_string str = before ++ after
        /\ matches r (match before with [] => true | _ => false end)
                   after st' s'.
Proof.
  unfold test.
  assert (Hsearch : forall s st,
             search r st s = true
             <-> exists before after st' s',
                   s = before ++ after
                   /\ matches r (match before with [] => st | _ => false end)
                              after st' s').
  { induction s as [|c s IH]; intros st; cbn [search].
    - destruct (exec r st [] (fun _ _ => true)) eqn:He.
      + split; [intros _ | reflexivity].
        apply exec_sound in He. destruct He as [st' [s' [Hm _]]].
        now exists [], [], st', s'.
      + split; [discriminate |].
        intros [before [after [st' [s' [Heq Hm]]]]].
        symmetry in Heq. apply app_eq_nil in Heq. destruct Heq as [-> ->].
        rewrite <- He. eapply exec_complete; [exact Hm | reflexivity].
    - destruct (exec r st (c :: s) (fun _ _ => true)) eqn:He.
      + split; [intros _ | reflexivity].
        apply exec_sound in He. destruct He as [st' [s' [Hm _]]].
        now exists [], (c :: s), st', s'.
      + rewrite IH. split.
        * intros [before [after [st' [s' [-> Hm]]]]].
          exists (c :: before), after, st', s'. split; [reflexivity |].
          destruct before; exact Hm.
        * intros [before [after [st' [s' [Heq Hm]]]]].
          destruct before as [|b before].
          -- cbn in Heq. subst after.
             rewrite (exec_complete r st (c :: s) st' s' _ Hm eq_refl) in He.
             discriminate He.
          -- injection Heq as -> ->.
             exists before, after, st', s'. split; [reflexivity |].
             destruct before; exact Hm. }
  apply Hsearch.
Qed.

End Matcher.

(** *** Strings and lists *)

Lemma append_assoc (a b c : string) : ((a ++ b) ++ c = a ++ (b ++ c))%string.
Proof.
  induction a as [|x a IH]; simpl; [reflexivity | now rewrite IH].
Qed.

Lemma append_nil_r (a : string) : (a ++ "")%string = a.
Proof.
  induction a as [|x a IH]; simpl; [reflexivity | now rewrite IH].
Qed.

Lemma split_spaces_spaceless (s : string) :
  spaceless s = true -> split_spaces s = [s].
Proof.
  induction s as [|c s IH]; simpl; [reflexivity |].
  intros H. apply andb_prop in H. destruct H as [Hc Hs].
  apply negb_true_iff in Hc. rewrite Hc, (IH Hs). reflexivity.
Qed.

Lemma split_spaces_app (a r : string) :
  spaceless a = true ->
  split_spaces (a ++ String " " r) = a :: split_spaces r.
Proof.
  induction a as [|c a IH]; simpl; [reflexivity |].
  intros H. apply andb_prop in H. destruct H as [Hc Hs].
  apply negb_true_iff in Hc. rewrite Hc, (IH Hs). reflexivity.
Qed.

(** Splitting a joined list gives the list back, when it is not empty and
    no element has a space. *)
Lemma split_spaces_join (l : list string) :
  l <> [] -> Forall (fun a => spaceless a = true) l ->
  split_spaces (join " " l) = l.
Proof.
  induction l as [|a l IH]; [congruence |].
  intros _ H. inversion H as [|? ? Ha Hl]; subst.
  destruct l as [|b l].
  - simpl. now apply split_spaces_spaceless.
  - change (join " " (a :: b :: l))
      with (a ++ String " " (join " " (b :: l)))%string.
    rewrite split_spaces_app by assumption.
    rewrite IH by (assumption || discriminate). reflexivity.
Qed.

Lemma fold_push {A : Type} (l acc : list A) :
  fold_left (fun results block => results ++ [block]) l acc = acc ++ l.
Proof.
  revert acc. induction l as [|x l IH]; intros acc; simpl.
  - now rewrite app_nil_r.
  - rewrite IH, <- app_assoc. reflexivity.
Qed.

(** *** [pieces] *)

Lemma pieces_concat {A : Type} (fuel g : nat) (l : list A) :
  0 < g -> List.length l <= fuel -> List.concat (pieces fuel g l) = l.
Proof.
  intros Hg. revert l. induction fuel as [|fuel IH]; intros l Hl.
  - destruct l; [reflexivity | simpl in Hl; lia].
  - destruct l as [|x l]; [reflexivity |].
    cbn [pieces List.concat]. rewrite IH.
    + apply firstn_skipn.
    + rewrite length_skipn. cbn [List.length] in *. lia.
Qed.

Lemma pieces_nonempty {A : Type} (fuel g : nat) (l : list A) :
  0 < g -> Forall (fun p => p <> []) (pieces fuel g l).
Proof.
  intros Hg. revert l. induction fuel as [|fuel IH]; intros l; [constructor |].
  destruct l as [|x l]; [constructor |].
  cbn [pieces]. constructor; [| apply IH].
  destruct g; [lia | discriminate].
Qed.

Lemma pieces_Forall {A : Type} (P : A -> Prop) (fuel g : nat) (l : list A) :
  Forall P l -> Forall (Forall P) (pieces fuel g l).
Proof.
  revert l. induction fuel as [|fuel IH]; intros l H; [constructor |].
  destruct l as [|x l]; [constructor |].
  rewrite <- (firstn_skipn g (x :: l)) in H.
  apply Forall_app in H. destruct H as [Hf Hs].
  cbn [pieces]. constructor; [assumption | now apply IH].
Qed.

Lemma pieces_nth {A : Type} (fuel g : nat) (l : list A) (i : nat) (p : list A) :
  nth_error (pieces fuel g l) i = Some p -> p = firstn g (skipn (i * g) l).
Proof.
  revert l i. induction fuel as [|fuel IH]; intros l i H.
  - destruct i; discriminate.
  - destruct l as [|x l]; [destruct i; discriminate |].
    cbn [pieces] in H. destruct i as [|i]; cbn [nth_error] in H.
    + injection H as <-. reflexivity.
    + apply IH in H. rewrite skipn_skipn in H.
      subst p. f_equal. f_equal. lia.
Qed.

Lemma ceil_div_step (n g : nat) :
  0 < g -> 0 < n -> ceil_div n g = S (ceil_div (n - g) g).
Proof.
  intros Hg Hn. unfold ceil_div.
  destruct (Nat.le_gt_cases g n) as [Hle | Hlt].
  - replace (n + g - 1) with ((n - g + g - 1) + 1 * g) by lia.
    rewrite Nat.div_add by lia. lia.
  - replace (n - g) with 0 by lia.
    rewrite (Nat.div_small (0 + g - 1) g) by lia.
    replace (n + g - 1) with ((n - 1) + 1 * g) by lia.
    rewrite Nat.div_add by lia. rewrite Nat.div_small by lia. reflexivity.
Qed.

Lemma pieces_length {A : Type} (fuel g : nat) (l : list A) :
  0 < g -> List.length l <= fuel ->
  List.length (pieces fuel g l) = ceil_div (List.length l) g.
Proof.
  intros Hg. revert l. induction fuel as [|fuel IH]; intros l Hl.
  - destruct l; simpl in Hl; [| lia]. simpl. unfold ceil_div.
    symmetry. apply Nat.div_small. lia.
  - destruct l as [|x l].
    + simpl. unfold ceil_div. symmetry. apply Nat.div_small. lia.
    + cbn [pieces List.length]. rewrite IH.
      * rewrite length_skipn. cbn [List.length].
        symmetry. apply ceil_div_step; lia.
      * rewrite length_skipn. cbn [List.length] in *. lia.
Qed.

(** *** [tools.chunk] *)

Lemma chunk_loop_pieces (fuel : nat) (obj : list string) (offset idx : nat)
      (acc : list string) :
  0 < offset -> List.length obj - idx <= fuel ->
  tools.chunk_loop fuel obj offset idx acc
  = Some (acc ++ map (join " ") (pieces fuel offset (skipn idx obj))).
Proof.
  intros Hoff. revert idx acc.
  induction fuel as [|fuel IH]; intros idx acc Hfuel.
  - cbn [tools.chunk_loop pieces].
    replace (idx <? List.length obj) with false
      by (symmetry; apply Nat.ltb_ge; lia).
    now rewrite app_nil_r.
  - cbn [tools.chunk_loop].
    destruct (idx <? List.length obj) eqn:Hlt.
    + apply Nat.ltb_lt in Hlt.
      rewrite IH by lia.
      destruct (skipn idx obj) as [|x rest] eqn:Hskip.
      * apply skipn_all_iff in Hskip. lia.
      * cbn [pieces map]. rewrite <- Hskip.
        rewrite skipn_skipn, (Nat.add_comm offset idx).
        unfold slice. replace (idx + offset - idx) with offset by lia.
        rewrite <- app_assoc. reflexivity.
    + apply Nat.ltb_ge in Hlt.
      rewrite (skipn_all2 obj Hlt). cbn [pieces map].
      now rewrite app_nil_r.
Qed.

(** [chunk] returns when the offset is positive, and what it returns is
    the joined consecutive groups of [offset] elements. *)
Lemma chunk_pieces (obj : list string) (offset : nat) :
  0 < offset ->
  tools.chunk obj offset
  = Some (map (join " ") (pieces (List.length obj) offset obj)).
Proof.
  intros Hoff. unfold tools.chunk.
  rewrite chunk_loop_pieces by lia. reflexivity.
Qed.

(** *** [network.range] *)

Section RangeFacts.

Variable cidr_list : string -> list string.

Lemma range_pieces (opts : options) (host : string) :
  let blocks := cidr_list host in
  let g := splitat (List.length blocks) (Opts.blocksize opts) in
  network.range cidr_list opts host
  = Some (if (1 <? g)%Z
          then map (join " ") (pieces (List.length blocks) (Z.to_nat g) blocks)
          else [join " " blocks]).
Proof.
  intros blocks g. unfold network.range.
  fold blocks. fold (splitat (List.length blocks) (Opts.blocksize opts)).
  fold g. destruct (1 <? g)%Z eqn:Hg; [| reflexivity].
  apply Z.ltb_lt in Hg.
  rewrite chunk_pieces by lia. cbn [bind]. now rewrite fold_push.
Qed.

(** [network.range] returns, and returns the partition. *)
Lemma range_partition (opts : options) (host : string) :
  network.range cidr_list opts host = Some (partition cidr_list opts host).
Proof. apply range_pieces. Qed.

(** The number of blocks: the enumeration cut every [splitat] addresses. *)
Lemma range_length (opts : options) (host : string) :
  let n := List.length (cidr_list host) in
  let g := splitat n (Opts.blocksize opts) in
  option_map (@List.length string) (network.range cidr_list opts host)
  = Some (if (1 <? g)%Z then ceil_div n (Z.to_nat g) else 1).
Proof.
  intros n g. rewrite range_pieces. fold n g. cbn [option_map].
  destruct (1 <? g)%Z eqn:Hg; [| reflexivity].
  apply Z.ltb_lt in Hg.
  rewrite length_map, pieces_length by lia. reflexivity.
Qed.

(** With a group count of at most 1 the whole enumeration is one block. *)
Lemma range_single (opts : options) (host : string) :
  (splitat (List.length (cidr_list host)) (Opts.blocksize opts) <= 1)%Z ->
  network.range cidr_list opts host = Some [join " " (cidr_list host)].
Proof.
  intros H. rewrite range_pieces.
  replace (1 <? _)%Z with false by (symmetry; apply Z.ltb_ge; exact H).
  reflexivity.
Qed.

End RangeFacts.

(** C1: the number of blocks on the 256 addresses of a /24 block with
    block size 128.  [round(256 / 128)] is 2, and [network.range] hands
    it to [tools.chunk] as the length of a block: the result has 128
    blocks of two addresses, not 2 blocks of 128, although [blocksize] is
    documented as the number of hosts per block. *)
Theorem range_block_count_24_128 :
  let opts := scan_options ["10.0.0.0/24"] 128 "1-1024" in
  List.length (cidr_list_sample "10.0.0.0/24") = 256
  /\ splitat 256 (Opts.blocksize opts) = 2%Z
  /\ option_map (@List.length string)
       (network.range cidr_list_sample opts "10.0.0.0/24") = Some 128
  /\ option_map (@hd_error string)
       (network.range cidr_list_sample opts "10.0.0.0/24")
     = Some (Some "10.0.0.0 10.0.0.1").
Proof.
  vm_compute. repeat split; reflexivity.
Qed.

(** C2: the blocks of [network.range], each split on single spaces and
    concatenated in order, are the enumeration of the CIDR block, and
    block [i] is the joined sub-range of addresses [i * w] to
    [i * w + w], for the width [w] that the count and the block size fix.
    The enumeration is not empty and its addresses have no space. *)
Theorem range_blocks_are_enumeration
        (cidr_list : string -> list string) (opts : options) (host : string) :
  cidr_list host <> [] ->
  Forall (fun a => spaceless a = true) (cidr_list host) ->
  exists blocks,
    network.range cidr_list opts host = Some blocks
    /\ List.concat (map split_spaces blocks) = cidr_list host
    /\ forall i block,
         nth_error blocks i = Some block ->
         let w := block_width (List.length (cidr_list host))
                              (Opts.blocksize opts) in
         block = join " " (slice (cidr_list host) (i * w) (i * w + w)).
Proof.
  intros Hne Hsp. rewrite range_pieces. cbv zeta. unfold block_width.
  set (blocks := cidr_list host) in *.
  set (g := splitat (List.length blocks) (Opts.blocksize opts)).
  eexists. split; [reflexivity |].
  destruct (1 <? g)%Z eqn:Hg.
  - apply Z.ltb_lt in Hg.
    assert (Hpos : 0 < Z.to_nat g) by lia.
    split.
    + rewrite map_map.
      transitivity
        (List.concat (pieces (List.length blocks) (Z.to_nat g) blocks));
        [| now apply pieces_concat].
      f_equal. rewrite <- (map_id (pieces _ _ blocks)) at 2.
      apply map_ext_Forall.
      pose proof (pieces_nonempty (List.length blocks) (Z.to_nat g) blocks Hpos)
        as Hnonempty.
      pose proof (pieces_Forall _ (List.length blocks) (Z.to_nat g) blocks Hsp)
        as Hspaceless.
      induction Hnonempty as [|p ps Hp _ IH]; [constructor |].
      inversion Hspaceless; subst.
      constructor; [now apply split_spaces_join | now apply IH].
    + intros i block Hi.
      rewrite nth_error_map in Hi.
      destruct (nth_error (pieces _ _ blocks) i) as [p|] eqn:Hp;
        [| discriminate].
      apply pieces_nth in Hp. injection Hi as <-. subst p.
      unfold slice. f_equal. f_equal. lia.
  - split.
    + cbn [map List.concat]. rewrite app_nil_r.
      now apply split_spaces_join.
    + intros [|i] block Hi; cbn [nth_error] in Hi.
      * injection Hi as <-. unfold slice. cbn [Nat.mul Nat.add skipn].
        rewrite Nat.sub_0_r, firstn_all. reflexivity.
      * destruct i; discriminate.
Qed.

Lemma forallb_Forall {A : Type} (p : A -> bool) (l : list A) :
  forallb p l = true -> Forall (fun a => p a = true) l.
Proof.
  intros H. apply Forall_forall. now apply forallb_forall.
Qed.

Lemma range_blocks_are_enumeration_witness :
  let opts := scan_options ["10.0.0.0/24"] 16 "1-1024" in
  let host := "10.0.0.0/24"%string in
  cidr_list_sample host <> []
  /\ Forall (fun a => spaceless a = true) (cidr_list_sample host)
  /\ exists blocks,
       network.range cidr_list_sample opts host = Some blocks
       /\ List.concat (map split_spaces blocks) = cidr_list_sample host
       /\ forall i block,
            nth_error blocks i = Some block ->
            let w := block_width (List.length (cidr_list_sample host))
                                 (Opts.blocksize opts) in
            block = join " " (slice (cidr_list_sample host) (i * w) (i * w + w)).
Proof.
  intros opts host.
  assert (Hne : cidr_list_sample host <> []) by (vm_compute; discriminate).
  assert (Hsp : Forall (fun a => spaceless a = true) (cidr_list_sample host))
    by (apply forallb_Forall; vm_compute; reflexivity).
  split; [exact Hne |]. split; [exact Hsp |].
  exact (range_blocks_are_enumeration cidr_list_sample opts host Hne Hsp).
Defined.

(** *** [validation] *)

Lemma verify_recognized (host : string) :
  validation.verify host
  = if recognized host then inr true else inl (host_error host).
Proof. reflexivity. Qed.

Lemma verify_all_errors (range : list string) (errors : list js_error) :
  validation.verify_all range errors = errors ++ host_errors range.
Proof.
  unfold validation.verify_all, host_errors.
  revert errors. induction range as [|host range IH]; intros errors.
  - cbn. now rewrite app_nil_r.
  - cbn [fold_left filter]. rewrite IH, verify_recognized.
    destruct (recognized host); cbn [negb map]; [reflexivity |].
    rewrite <- app_assoc. reflexivity.
Qed.

Section InitFacts.

Variable hasbin_sync : string -> bool.
Variable fs_access : string -> bool.

(** [validation.init] pushes the block-size error, then the errors of the
    range, then the port error, and fails when there is any. *)
Lemma init_collects (opts : options) :
  validation.init hasbin_sync fs_access opts
  = match init_errors opts with
    | [] => inr true
    | e :: errors => inl (e :: errors)
    end.
Proof.
  unfold validation.init, init_errors, block_errors, range_errors,
    port_errors.
  cbv zeta.
  destruct (128 <? Opts.blocksize opts)%Z;
    destruct (validation.test Net.discover (Opts.called opts));
    destruct (Opts.range opts) as [|host range];
    destruct (String.eqb (Opts.ports opts) "");
    destruct (validation.test Net.ports (Opts.ports opts));
    try change (host_errors []) with (@nil js_error);
    cbn [negb List.length Nat.eqb Nat.leb app];
    rewrite ?verify_all_errors; cbn [app];
    repeat match goal with
           | |- context [host_errors ?r] => destruct (host_errors r)
           end;
    cbn [app List.length Nat.ltb Nat.leb]; rewrite ?app_nil_r; reflexivity.
Qed.

(** Neither the search path nor the file system has a part in the
    result. *)
Lemma init_ignores_reachability (hasbin_sync' fs_access' : string -> bool)
      (opts : options) :
  validation.init hasbin_sync fs_access opts
  = validation.init hasbin_sync' fs_access' opts.
Proof. reflexivity. Qed.

End InitFacts.






(** C8: the pattern [ports] on strings with a leading separator.  The
    first turn of the repeated group may take the separator rather than
    [^], so [",80"] and ["-80"] pass, and so does the chain ["1-2-3"];
    [validation.init] reports no error for them.  A port of 0 and a port
    above 65535 are refused. *)
Theorem ports_leading_separator_passes :
  validation.test Net.ports ",80" = true
  /\ validation.test Net.ports "-80" = true
  /\ validation.test Net.ports "1-2-3" = true
  /\ validation.test Net.ports "0" = false
  /\ validation.test Net.ports "65536" = false
  /\ validation.init (fun _ => true) (fun _ => true)
       (scan_options ["10.0.0.1"] 16 ",80") = inr true.
Proof.
  vm_compute. repeat split; reflexivity.
Qed.

(** C10: [validation.init] on an executable that is neither on the search
    path nor on the file system.  [exists] is declared with the one
    parameter [path], so the function that would push the path error is
    dropped: the options pass. *)
Theorem unreachable_binary_passes_validation :
  let hasbin_sync := fun _ : string => false in
  let fs_access := fun _ : string => false in
  let opts :=
    Opts.with_nmap (scan_options ["10.0.0.1"] 16 "22") "/no/such/nmap" in
  validation.exists_ hasbin_sync (Opts.nmap opts) = false
  /\ validation.on_exists fs_access opts false [] = [Error validation.pathErr]
  /\ validation.init hasbin_sync fs_access opts = inr true.
Proof.
  vm_compute. repeat split; reflexivity.
Qed.

(** C4, as the code has it: on a call that is not [discover], a range
    with an entry that none of the six patterns accepts fails validation,
    whether or not other entries are accepted; the errors of all such
    entries are among the errors returned, together and in the order of
    the entries, and [config.init] hands them to the caller without
    building any block. *)
Theorem unrecognized_entry_fails_validation
        (hasbin_sync fs_access : string -> bool)
        (cidr_list : string -> list string)
        (merge : list string -> list string -> list string)
        (adapters : options -> option (list string)) (opts : options) :
  validation.test Net.discover (Opts.called opts) = false ->
  (exists host, In host (Opts.range opts) /\ recognized host = false) ->
  exists errors,
    validation.init hasbin_sync fs_access opts = inl errors
    /\ (exists before after,
           errors = before ++ host_errors (Opts.range opts) ++ after)
    /\ (forall host,
           In host (Opts.range opts) -> recognized host = false ->
           In (host_error host) errors)
    /\ config.init hasbin_sync fs_access cidr_list merge adapters opts
       = Some (config.Invalid errors).
Proof.
  intros Hcalled [bad [Hbad Hrec]].
  assert (Hin : forall host,
             In host (Opts.range opts) -> recognized host = false ->
             In (host_error host) (host_errors (Opts.range opts))).
  { intros host Hhost Hno. unfold host_errors. apply in_map.
    apply filter_In. split; [exact Hhost | now rewrite Hno]. }
  unfold config.init. rewrite init_collects.
  unfold init_errors, range_errors. rewrite Hcalled.
  set (first := match Opts.range opts with
                | [] => [Error validation.rangeErr]
                | _ :: _ => []
                end).
  set (errors := block_errors opts
                 ++ (first ++ host_errors (Opts.range opts))
                 ++ port_errors opts).
  assert (Hall : forall host,
             In host (Opts.range opts) -> recognized host = false ->
             In (host_error host) errors).
  { intros host Hhost Hno. unfold errors.
    apply in_or_app. right. apply in_or_app. left.
    apply in_or_app. right. now apply Hin. }
  destruct errors as [|e errors'] eqn:Herrors.
  - destruct (Hall bad Hbad Hrec).
  - exists (e :: errors'). split; [reflexivity |].
    split; [| split; [exact Hall | reflexivity]].
    exists (block_errors opts ++ first), (port_errors opts).
    rewrite <- Herrors. unfold errors.
    now rewrite <- !app_assoc.
Qed.

Lemma unrecognized_entry_fails_validation_witness :
  let opts := scan_options ["10.0.0.1"; "!!!"] 16 "1-1024" in
  let ok := fun _ : string => true in
  validation.test Net.discover (Opts.called opts) = false
  /\ (exists host, In host (Opts.range opts) /\ recognized host = false)
  /\ exists errors,
       validation.init ok ok opts = inl errors
       /\ (exists before after,
              errors = before ++ host_errors (Opts.range opts) ++ after)
       /\ (forall host,
              In host (Opts.range opts) -> recognized host = false ->
              In (host_error host) errors)
       /\ config.init ok ok cidr_list_sample (@app string) (fun _ => None) opts
          = Some (config.Invalid errors).
Proof.
  intros opts ok.
  assert (H1 : validation.test Net.discover (Opts.called opts) = false)
    by (vm_compute; reflexivity).
  assert (H2 : exists host, In host (Opts.range opts) /\ recognized host = false).
  { exists "!!!"%string. split; [right; left; reflexivity |].
    vm_compute. reflexivity. }
  split; [exact H1 |]. split; [exact H2 |].
  exact (unrecognized_entry_fails_validation ok ok cidr_list_sample
           (@app string) (fun _ => None) opts H1 H2).
Defined.

(** C4, as stated, at a range with an accepted and a refused entry:
    validation does not succeed, and no entry is converted to a block. *)
Lemma mixed_range_is_rejected :
  let opts := scan_options ["10.0.0.1"; "!!!"] 16 "1-1024" in
  let ok := fun _ : string => true in
  recognized "10.0.0.1" = true
  /\ recognized "!!!" = false
  /\ validation.init ok ok opts = inl [host_error "!!!"]
  /\ validation.init ok ok opts <> inr true
  /\ config.init ok ok cidr_list_sample (@app string) (fun _ => None) opts
     = Some (config.Invalid [host_error "!!!"]).
Proof.
  vm_compute. repeat split; try reflexivity. discriminate.
Qed.

(** *** [tools.command] *)

Lemma prefix_app (a b c : string) :
  String.prefix (a ++ b) (a ++ c) = String.prefix b c.
Proof.
  induction a as [|x a IH]; [reflexivity |].
  cbn [append String.prefix].
  destruct (ascii_dec x x) as [_ | Hx]; [exact IH | now elim Hx].
Qed.

(** C5: the command line, slot by slot.  The executable is followed by
    [ -sU] exactly when [udp] is set (a space stands in its place
    otherwise); the host timeout is always there; [ -6] follows the flags
    exactly when the block matches the IPv6 pattern; [ -p<ports>] comes
    right before the block exactly when [ports] is not empty, and
    nothing stands in its place otherwise; the block ends the line. *)
Theorem command_layout (opts : options) (block : string) :
  tools.command opts block
  = (Opts.nmap opts
     ++ (if Opts.udp opts then " -sU" else " ")
     ++ " --host-timeout=" ++ number_to_string (Opts.timeout opts) ++ "s "
     ++ join " " (Opts.flags opts)
     ++ (if validation.test Net.IPv6 block then " -6" else "")
     ++ (if String.eqb (Opts.ports opts) "" then ""
         else " -p" ++ Opts.ports opts)
     ++ " " ++ block)%string
  /\ (String.prefix (Opts.nmap opts ++ " -sU") (tools.command opts block)
      = true <-> Opts.udp opts = true).
Proof.
  assert (Hlayout :
    tools.command opts block
    = (Opts.nmap opts
       ++ (if Opts.udp opts then " -sU" else " ")
       ++ " --host-timeout=" ++ number_to_string (Opts.timeout opts) ++ "s "
       ++ join " " (Opts.flags opts)
       ++ (if validation.test Net.IPv6 block then " -6" else "")
       ++ (if String.eqb (Opts.ports opts) "" then ""
           else " -p" ++ Opts.ports opts)
       ++ " " ++ block)%string).
  { unfold tools.command.
    destruct (Opts.udp opts), (validation.test Net.IPv6 block),
      (String.eqb (Opts.ports opts) "");
      cbn [negb]; rewrite ?append_assoc; cbn [append];
      rewrite ?append_assoc; cbn [append]; reflexivity. }
  split; [exact Hlayout |].
  rewrite Hlayout, prefix_app.
  destruct (Opts.udp opts); cbn; split; congruence.
Qed.

(** *** The unit of a block *)

Section UnitFacts.

Variable node : Type.
Variable parse_nmaprun : string -> string + node.

Lemma run_without_data (opts : options) (events : list tools.event)
      (u : tools.unit_state node) :
  (forall chunk, ~ In (tools.StdoutData chunk) events) ->
  tools.report u = [] ->
  tools.report (tools.run node parse_nmaprun opts u events) = []
  /\ tools.calls (tools.run node parse_nmaprun opts u events)
     = tools.calls u
       ++ map (fun err => reporting.Err (Error (reporting.text err)))
              (exit_errors events).
Proof.
  unfold tools.run. revert u.
  induction events as [|e events IH]; intros u Hno Hempty.
  - cbn. now rewrite app_nil_r.
  - assert (Hno' : forall chunk, ~ In (tools.StdoutData chunk) events)
      by (intros chunk Hin; apply (Hno chunk); now right).
    cbn [fold_left].
    destruct e as [chunk | chunk | | [err |]].
    + elim (Hno chunk). now left.
    + cbn [tools.handle exit_errors]. now apply IH.
    + cbn [tools.handle exit_errors]. rewrite Hempty. cbn.
      now apply IH.
    + cbn [tools.handle exit_errors].
      destruct (IH {| tools.report := tools.report u;
                      tools.calls :=
                        tools.calls u
                        ++ [reporting.reports node parse_nmaprun opts
                              (reporting.Failed err)] |} Hno' Hempty)
        as [Hr Hc].
      split; [exact Hr |]. rewrite Hc. cbn.
      now rewrite <- app_assoc.
    + cbn [tools.handle exit_errors]. now apply IH.
Qed.

End UnitFacts.

(** A run without chunks: the handler of [end] does nothing, and the
    callback of the unit is called for the errors the process reports
    and for nothing else. *)
Lemma end_without_chunks_is_silent
        (node : Type) (parse_nmaprun : string -> string + node)
        (opts : options) (range : string) (events : list tools.event) :
  (forall chunk, ~ In (tools.StdoutData chunk) events) ->
  let u := tools.run node parse_nmaprun opts
             (snd (tools.block node opts range)) events in
  tools.handle node parse_nmaprun opts u tools.StdoutEnd = u
  /\ tools.calls u
     = map (fun err => reporting.Err (Error (reporting.text err)))
           (exit_errors events).
Proof.
  intros Hno u.
  destruct (run_without_data node parse_nmaprun opts events
              (snd (tools.block node opts range)) Hno eq_refl) as [Hr Hc].
  fold u in Hr, Hc. split.
  - cbn [tools.handle]. rewrite Hr. reflexivity.
  - exact Hc.
Qed.

(** C9: a unit whose process writes nothing and exits with no error.
    Neither the handler of [end] nor the callback of [exec] calls the
    callback of the unit: it is never called, with an error or
    otherwise, and the unit does not settle.  The units next to it do:
    one chunk, or an error of the process, gets the callback called. *)
Theorem empty_output_never_settles :
  let opts := scan_options ["10.0.0.1"] 16 "22" in
  let parse := fun _ : string => @inl string unit "no XML" in
  let start := snd (tools.block unit opts "10.0.0.1") in
  let failed := {| reporting.code := 1; reporting.text := "failed" |} in
  tools.calls
    (tools.run unit parse opts start [tools.StdoutEnd; tools.Exit None])
  = []
  /\ List.length
       (tools.calls
          (tools.run unit parse opts start
             [tools.StdoutData "<nmaprun/>"; tools.StdoutEnd;
              tools.Exit None]))
     = 1
  /\ tools.calls
       (tools.run unit parse opts start
          [tools.StdoutEnd; tools.Exit (Some failed)])
     = [reporting.Err (Error "failed")].
Proof.
  cbv zeta. repeat split; reflexivity.
Qed.

(** *** [network.calculate] *)

Section CalculateFacts.

Variable cidr_list : string -> list string.
Variable merge : list string -> list string -> list string.

Lemma visit_classify (opts : options) (results : list string)
      (tresults : list (list string)) (host : string) :
  network.visit cidr_list opts (results, tresults) host
  = Some (match classify host with
          | Category.IPv4CIDR =>
              (results, tresults ++ [partition cidr_list opts host])
          | Category.Invalid => (results, tresults)
          | _ => (results ++ [host], tresults)
          end).
Proof.
  unfold network.visit, classify. cbv zeta.
  destruct (validation.test Net.hostname host);
    destruct (validation.test Net.IPv4 host);
    destruct (validation.test Net.IPv6 host);
    cbn [orb]; try reflexivity.
  destruct (validation.test Net.IPv4CIDR host).
  - rewrite range_partition. reflexivity.
  - destruct (validation.test Net.IPv4Range host); [reflexivity |].
    destruct (validation.test Net.IPv6CIDR host); reflexivity.
Qed.

(** The loop of [calculate]: [results] gets the entries that are their
    own block, in order, and [tresults] the partition of every CIDR
    entry, in order. *)
Lemma visit_all_collects (opts : options) (hosts : list string)
      (results : list string) (tresults : list (list string)) :
  network.visit_all cidr_list opts hosts (results, tresults)
  = Some (results ++ emitted_unchanged hosts,
          tresults ++ map (partition cidr_list opts) (cidr_entries hosts)).
Proof.
  revert results tresults.
  induction hosts as [|host hosts IH]; intros results tresults.
  - cbn. now rewrite !app_nil_r.
  - cbn [network.visit_all]. rewrite visit_classify. cbn [bind].
    unfold emitted_unchanged, cidr_entries. cbn [filter].
    fold (emitted_unchanged hosts). fold (cidr_entries hosts).
    destruct (classify host); rewrite IH; cbn [map];
      rewrite <- ?app_assoc; reflexivity.
Qed.

(** [calculate] merges the blocks of the first CIDR entry only. *)
Lemma calculate_first_cidr (opts : options) :
  network.calculate cidr_list merge opts
  = Some (match cidr_entries (Opts.range opts) with
          | first :: _ =>
              merge (emitted_unchanged (Opts.range opts))
                    (partition cidr_list opts first)
          | [] => emitted_unchanged (Opts.range opts)
          end).
Proof.
  unfold network.calculate. rewrite visit_all_collects. cbn [bind app].
  destruct (cidr_entries (Opts.range opts)); reflexivity.
Qed.

End CalculateFacts.

(** C3: a range of two IPv4 CIDR entries.  [network.calculate] calls
    [network.range] on both and keeps both results in [tresults], but
    merges [tresults[0]] only: the block of the second entry is not in
    the output, where the specification asks for the blocks of every
    CIDR entry, each at the place of its entry. *)
Theorem calculate_loses_second_cidr :
  let opts := scan_options ["10.0.0.0/30"; "10.0.1.0/30"] 16 "22" in
  map classify (Opts.range opts) = [Category.IPv4CIDR; Category.IPv4CIDR]
  /\ network.range cidr_list_sample opts "10.0.0.0/30"
     = Some ["10.0.0.0 10.0.0.1 10.0.0.2 10.0.0.3"]
  /\ network.range cidr_list_sample opts "10.0.1.0/30"
     = Some ["10.0.1.0 10.0.1.1 10.0.1.2 10.0.1.3"]
  /\ network.calculate cidr_list_sample (@app string) opts
     = Some ["10.0.0.0 10.0.0.1 10.0.0.2 10.0.0.3"]
  /\ spliced cidr_list_sample opts (Opts.range opts)
     = ["10.0.0.0 10.0.0.1 10.0.0.2 10.0.0.3";
        "10.0.1.0 10.0.1.1 10.0.1.2 10.0.1.3"].
Proof.
  vm_compute. repeat split; reflexivity.
Qed.

(** *** The example of the specification

    Options [{ports: '22,80', range: ['10.0.0.0/30'], blocksize: 16}]:
    one block, of the four addresses of the CIDR block, and a command
    that ends in the port flag and the block. *)
Example scan_30_blocks :
  network.calculate cidr_list_sample (@app string)
    (scan_options ["10.0.0.0/30"] 16 "22,80")
  = Some ["10.0.0.0 10.0.0.1 10.0.0.2 10.0.0.3"].
Proof. vm_compute. reflexivity. Qed.

Example scan_30_command :
  tools.command (scan_options ["10.0.0.0/30"] 16 "22,80")
    "10.0.0.0 10.0.0.1 10.0.0.2 10.0.0.3"
  = "nmap  --host-timeout=120s -T4 -oX - -p22,80 10.0.0.0 10.0.0.1 10.0.0.2 10.0.0.3".
Proof. vm_compute. reflexivity. Qed.

Example scan_ipv6_udp_command :
  tools.command
    (Opts.mk "nmap" false "" ["::1"] 30 16 4 ["-oX -"] true true "getData")
    "::1"
  = "nmap -sU --host-timeout=30s -oX - -6 ::1".
Proof. vm_compute. reflexivity. Qed.

(** Entries of each kind, and one of none.  The pattern [IPv6] has no
    [$], so it accepts an IPv6 CIDR block before [IPv6CIDR] is tried. *)
Example classify_examples :
  map classify
      ["example.com"; "10.0.0.1"; "::1"; "10.0.0.0/24"; "10.0.0.1-20";
       "2001:db8::/32"; "!!!"]
  = [Category.Hostname; Category.IPv4; Category.IPv6; Category.IPv4CIDR;
     Category.IPv4Range; Category.IPv6; Category.Invalid].
Proof. vm_compute. reflexivity. Qed.

(** ** Further properties *)

(** *** What the patterns accept *)

Section Shapes.
Import Regex.

Lemma list_ascii_of_string_app (a b : string) :
  list_ascii_of_string (a ++ b)
  = list_ascii_of_string a ++ list_ascii_of_string b.
Proof.
  induction a as [|c a IH]; cbn; [reflexivity | now rewrite IH].
Qed.

(** A pattern without [$] matches the same way when text follows. *)
Lemma matches_frame (r : regex) (st : bool) (s : list ascii)
      (st' : bool) (s' : list ascii) (t : list ascii) :
  Shape.eol_free r = true ->
  matches r st s st' s' -> matches r st (s ++ t) st' (s' ++ t).
Proof.
  intros Hfree Hm. revert Hfree.
  induction Hm as [st s | p st c s Hp | s | st
                   | r1 r2 st s st1 s1 st2 s2 _ IH1 _ IH2
                   | r1 r2 st s st' s' _ IH | r1 r2 st s st' s' _ IH
                   | r st s | r st s st1 s1 st2 s2 _ IH1 _ IH2];
    cbn [Shape.eol_free]; intros Hfree.
  - constructor.
  - cbn [app]. now constructor.
  - constructor.
  - discriminate.
  - apply andb_prop in Hfree. destruct Hfree as [H1 H2].
    econstructor; [now apply IH1 | now apply IH2].
  - apply andb_prop in Hfree. apply MOrL. now apply IH.
  - apply andb_prop in Hfree. apply MOrR. now apply IH.
  - constructor.
  - econstructor; [now apply IH1 | now apply IH2].
Qed.

(** A pattern without [^] matches the same way after the start. *)
Lemma matches_inside (r : regex) (st : bool) (s : list ascii)
      (st' : bool) (s' : list ascii) :
  Shape.bol_free r = true ->
  matches r st s st' s' -> matches r false s false s'.
Proof.
  intros Hfree Hm. revert Hfree.
  induction Hm as [st s | p st c s Hp | s | st
                   | r1 r2 st s st1 s1 st2 s2 _ IH1 _ IH2
                   | r1 r2 st s st' s' _ IH | r1 r2 st s st' s' _ IH
                   | r st s | r st s st1 s1 st2 s2 _ IH1 _ IH2];
    cbn [Shape.bol_free]; intros Hfree.
  - constructor.
  - now constructor.
  - discriminate.
  - constructor.
  - apply andb_prop in Hfree. destruct Hfree as [H1 H2].
    econstructor; [now apply IH1 | now apply IH2].
  - apply andb_prop in Hfree. apply MOrL. now apply IH.
  - apply andb_prop in Hfree. apply MOrR. now apply IH.
  - constructor.
  - econstructor; [now apply IH1 | now apply IH2].
Qed.

(** A pattern that starts with [^] matches at the start only. *)
Lemma matches_bol_led (r : regex) (st : bool) (s : list ascii)
      (st' : bool) (s' : list ascii) :
  Shape.bol_led r = true -> matches r st s st' s' -> st = true.
Proof.
  intros Hled Hm. revert Hled.
  induction Hm; cbn [Shape.bol_led]; intros Hled;
    try discriminate; try reflexivity; auto.
Qed.

(** A pattern that ends with [$] leaves nothing. *)
Lemma matches_eol_ended (r : regex) (st : bool) (s : list ascii)
      (st' : bool) (s' : list ascii) :
  Shape.eol_ended r = true -> matches r st s st' s' -> s' = [].
Proof.
  intros Hend Hm. revert Hend.
  induction Hm; cbn [Shape.eol_ended]; intros Hend;
    try discriminate; try reflexivity; auto.
Qed.

Lemma all_ascii_complete (c : ascii) : In c Shape.all_ascii.
Proof.
  unfold Shape.all_ascii. rewrite <- (ascii_nat_embedding c).
  apply in_map. apply in_seq. pose proof (nat_ascii_bounded c). lia.
Qed.

(** The characters a match takes are in the classes of the pattern. *)
Lemma matches_within (allowed : ascii -> bool) (r : regex) (st : bool)
      (s : list ascii) (st' : bool) (s' : list ascii) :
  Shape.within allowed r = true ->
  matches r st s st' s' ->
  exists w, s = w ++ s' /\ Forall (fun c => allowed c = true) w.
Proof.
  intros Hin Hm. revert Hin.
  induction Hm as [st s | p st c s Hp | s | st
                   | r1 r2 st s st1 s1 st2 s2 _ IH1 _ IH2
                   | r1 r2 st s st' s' _ IH | r1 r2 st s st' s' _ IH
                   | r st s | r st s st1 s1 st2 s2 _ IH1 _ IH2];
    cbn [Shape.within]; intros Hin.
  - now exists [].
  - exists [c]. split; [reflexivity |]. constructor; [| constructor].
    rewrite forallb_forall in Hin.
    specialize (Hin c (all_ascii_complete c)). rewrite Hp in Hin. exact Hin.
  - now exists [].
  - now exists [].
  - apply andb_prop in Hin. destruct Hin as [H1 H2].
    destruct (IH1 H1) as [w1 [-> F1]], (IH2 H2) as [w2 [-> F2]].
    exists (w1 ++ w2). split; [now rewrite app_assoc | now apply Forall_app].
  - apply andb_prop in Hin. now apply IH.
  - apply andb_prop in Hin. now apply IH.
  - now exists [].
  - destruct (IH1 Hin) as [w1 [-> F1]], (IH2 Hin) as [w2 [-> F2]].
    exists (w1 ++ w2). split; [now rewrite app_assoc | now apply Forall_app].
Qed.

(** A pattern between [^] and [$] accepts only strings made of the
    characters of its classes. *)
Lemma anchored_alphabet (allowed : ascii -> bool) (r : regex) (str : string) :
  Shape.bol_led r = true -> Shape.eol_ended r = true ->
  Shape.within allowed r = true ->
  test r str = true ->
  Forall (fun c => allowed c = true) (list_ascii_of_string str).
Proof.
  intros Hled Hend Hin Htest.
  apply test_matches in Htest.
  destruct Htest as [before [after [st' [s' [Heq Hm]]]]].
  pose proof (matches_bol_led _ _ _ _ _ Hled Hm) as Hst.
  destruct before; [| discriminate Hst].
  pose proof (matches_eol_ended _ _ _ _ _ Hend Hm) as ->.
  destruct (matches_within allowed _ _ _ _ _ Hin Hm) as [w [-> Hw]].
  rewrite Heq. cbn [app]. now rewrite app_nil_r.
Qed.

(** A pattern with neither [^] nor [$] accepts every string that holds a
    string it accepts. *)
Lemma unanchored_substring (r : regex) (a s b : string) :
  Shape.bol_free r = true -> Shape.eol_free r = true ->
  test r s = true -> test r (a ++ s ++ b) = true.
Proof.
  intros Hbol Heol Htest.
  apply test_matches in Htest.
  destruct Htest as [before [after [st' [s' [Heq Hm]]]]].
  apply test_matches.
  rewrite !list_ascii_of_string_app, Heq.
  apply (matches_frame _ _ _ _ _ (list_ascii_of_string b) Heol) in Hm.
  exists (list_ascii_of_string a ++ before), (after ++ list_ascii_of_string b).
  destruct (list_ascii_of_string a ++ before) as [|x pre] eqn:Hpre.
  - apply app_eq_nil in Hpre. destruct Hpre as [Ha Hb].
    rewrite Ha, Hb in *.
    exists st', (s' ++ list_ascii_of_string b).
    split; [now rewrite <- app_assoc | exact Hm].
  - exists false, (s' ++ list_ascii_of_string b).
    split; [rewrite <- Hpre; now rewrite <- !app_assoc |].
    eapply matches_inside; eassumption.
Qed.

(** A pattern that starts with [^] and has no [$] accepts every string
    that starts with a string it accepts. *)
Lemma prefix_pattern (r : regex) (s t : string) :
  Shape.bol_led r = true -> Shape.eol_free r = true ->
  test r s = true -> test r (s ++ t) = true.
Proof.
  intros Hled Heol Htest.
  apply test_matches in Htest.
  destruct Htest as [before [after [st' [s' [Heq Hm]]]]].
  pose proof (matches_bol_led _ _ _ _ _ Hled Hm) as Hst.
  destruct before; [| discriminate Hst].
  apply test_matches.
  exists [], (after ++ list_ascii_of_string t), st',
    (s' ++ list_ascii_of_string t).
  split; [now rewrite list_ascii_of_string_app, Heq |].
  now apply matches_frame.
Qed.

End Shapes.

Lemma verify_of_test (host : string) :
  validation.test Net.hostname host = true
  \/ validation.test Net.IPv4 host = true
  \/ validation.test Net.IPv6 host = true
  \/ validation.test Net.IPv4CIDR host = true
  \/ validation.test Net.IPv6CIDR host = true
  \/ validation.test Net.IPv4Range host = true ->
  validation.verify host = inr true.
Proof.
  intros H. rewrite verify_recognized. unfold recognized.
  destruct H as [H | [H | [H | [H | [H | H]]]]]; rewrite H;
    rewrite ?orb_true_r; reflexivity.
Qed.

(** X1: a range entry that starts with a letter passes [verify]: the left
    branch of [hostname] has no [$], so whatever follows the letter is not
    looked at; [network.calculate] takes the entry for a host name. *)
Theorem letter_led_entry_is_hostname (c : ascii) (rest : string) :
  Net.alpha c = true ->
  validation.verify (String c rest) = inr true
  /\ classify (String c rest) = Category.Hostname.
Proof.
  intros Hc.
  assert (Ht : validation.test Net.hostname (String c rest) = true).
  { unfold validation.test, Regex.test.
    cbn [list_ascii_of_string Regex.search].
    rewrite (exec_complete Net.hostname true
               (c :: list_ascii_of_string rest) false
               (list_ascii_of_string rest)); [reflexivity | | reflexivity].
    unfold Net.hostname. apply Regex.MOrL.
    eapply Regex.MCat.
    - eapply Regex.MCat; [apply Regex.MBol | apply Regex.MStarO].
    - unfold Net.label. apply Regex.MOrL. now apply Regex.MClass. }
  split.
  - apply verify_of_test. now left.
  - unfold classify. now rewrite Ht.
Qed.

Lemma letter_led_entry_is_hostname_witness :
  Net.alpha "a" = true
  /\ validation.verify "a; id" = inr true
  /\ classify "a; id" = Category.Hostname.
Proof.
  assert (H : Net.alpha "a" = true) by reflexivity.
  split; [exact H |].
  exact (letter_led_entry_is_hostname "a" "; id" H).
Defined.

(** X2: a range entry that ends in [localhost] passes [verify], whatever
    comes before: the right branch of [hostname] has no [^]. *)
Theorem localhost_suffix_passes (before : string) :
  validation.verify (before ++ "localhost") = inr true.
Proof.
  apply verify_of_test. left.
  unfold validation.test. apply test_matches.
  rewrite list_ascii_of_string_app.
  exists (list_ascii_of_string before), (list_ascii_of_string "localhost").
  set (st := match list_ascii_of_string before with
             | [] => true
             | _ :: _ => false
             end).
  assert (He : Regex.exec (Regex.Cat (Regex.str "localhost") Regex.Eol) st
                 (list_ascii_of_string "localhost") (fun _ _ => true) = true)
    by (destruct st; vm_compute; reflexivity).
  apply exec_sound in He. destruct He as [st' [s' [Hm _]]].
  exists st', s'. split; [reflexivity |].
  unfold Net.hostname. now apply Regex.MOrR.
Qed.

(** X3: a range entry that holds an IPv4 CIDR block anywhere passes
    [verify]: [IPv4CIDR] has neither [^] nor [$]. *)
Theorem cidr_substring_passes (before cidr after : string) :
  validation.test Net.IPv4CIDR cidr = true ->
  validation.test Net.IPv4CIDR (before ++ cidr ++ after) = true
  /\ validation.verify (before ++ cidr ++ after) = inr true.
Proof.
  intros H.
  assert (Ht : validation.test Net.IPv4CIDR (before ++ cidr ++ after) = true).
  { unfold validation.test in *.
    apply unanchored_substring; [reflexivity | reflexivity | exact H]. }
  split; [exact Ht |]. apply verify_of_test. tauto.
Qed.

Lemma cidr_substring_passes_witness :
  validation.test Net.IPv4CIDR "10.0.0.0/24" = true
  /\ validation.test Net.IPv4CIDR ("999" ++ "10.0.0.0/24" ++ "00 -oN /tmp/x")
     = true
  /\ validation.verify ("999" ++ "10.0.0.0/24" ++ "00 -oN /tmp/x") = inr true.
Proof.
  assert (H : validation.test Net.IPv4CIDR "10.0.0.0/24" = true)
    by (vm_compute; reflexivity).
  split; [exact H |].
  exact (cidr_substring_passes "999" "10.0.0.0/24" "00 -oN /tmp/x" H).
Defined.

(** X4: a string that starts with an IPv6 address matches [IPv6], which
    has no [$]: as a range entry it passes [verify], and as a block it
    gets the flag [-6]. *)
Theorem ipv6_prefix_passes (opts : options) (address rest : string) :
  validation.test Net.IPv6 address = true ->
  validation.verify (address ++ rest) = inr true
  /\ exists head,
       tools.command opts (address ++ rest)
       = (head ++ " -6"
          ++ (if String.eqb (Opts.ports opts) "" then ""
              else " -p" ++ Opts.ports opts)
          ++ " " ++ address ++ rest)%string.
Proof.
  intros H.
  assert (Ht : validation.test Net.IPv6 (address ++ rest) = true).
  { unfold validation.test in *.
    apply prefix_pattern; [reflexivity | reflexivity | exact H]. }
  split; [apply verify_of_test; tauto |].
  exists (Opts.nmap opts
          ++ (if Opts.udp opts then " -sU" else " ")
          ++ " --host-timeout=" ++ number_to_string (Opts.timeout opts) ++ "s "
          ++ join " " (Opts.flags opts))%string.
  unfold tools.command. rewrite Ht.
  destruct (Opts.udp opts), (String.eqb (Opts.ports opts) "");
    cbn [negb]; rewrite ?append_assoc; cbn [append];
    rewrite ?append_assoc; cbn [append]; reflexivity.
Qed.

Lemma ipv6_prefix_passes_witness :
  let opts := scan_options ["::1 10.0.0.1"] 16 "22" in
  validation.test Net.IPv6 "::1" = true
  /\ validation.verify ("::1" ++ " 10.0.0.1") = inr true
  /\ exists head,
       tools.command opts ("::1" ++ " 10.0.0.1")
       = (head ++ " -6"
          ++ (if String.eqb (Opts.ports opts) "" then ""
              else " -p" ++ Opts.ports opts)
          ++ " " ++ "::1" ++ " 10.0.0.1")%string.
Proof.
  intros opts.
  assert (H : validation.test Net.IPv6 "::1" = true)
    by (vm_compute; reflexivity).
  split; [exact H |].
  exact (ipv6_prefix_passes opts "::1" " 10.0.0.1" H).
Defined.

(** X5: every string [IPv6CIDR] accepts is accepted by [IPv6], which
    [network.calculate] tries first: no entry ever reaches the case of
    [IPv6CIDR] in its [switch]. *)
Theorem ipv6cidr_case_is_never_reached (host : string) :
  validation.test Net.IPv6CIDR host && negb (validation.test Net.IPv6 host)
  = false
  /\ classify host <> Category.IPv6CIDR.
Proof.
  assert (Hsub : validation.test Net.IPv6CIDR host = true ->
                 validation.test Net.IPv6 host = true).
  { unfold validation.test. intros H. apply test_matches in H.
    destruct H as [before [after [st' [s' [Heq Hm]]]]].
    apply test_matches.
    inversion Hm as [| | | | r1 r2 ? ? st1 s1 ? ? Hm1 _ | | | |]; subst.
    inversion Hm1 as [| | | | r1' r2' ? ? st2 s2 ? ? Hm2 _ | | | |]; subst.
    exists before, after, st2, s2. split; [exact Heq | exact Hm2]. }
  split.
  - destruct (validation.test Net.IPv6CIDR host); [| reflexivity].
    now rewrite (Hsub eq_refl).
  - unfold classify.
    destruct (validation.test Net.hostname host); [discriminate |].
    destruct (validation.test Net.IPv4 host); [discriminate |].
    destruct (validation.test Net.IPv6 host) eqn:H6; [discriminate |].
    destruct (validation.test Net.IPv4CIDR host); [discriminate |].
    destruct (validation.test Net.IPv4Range host); [discriminate |].
    destruct (validation.test Net.IPv6CIDR host) eqn:H6c; [| discriminate].
    specialize (Hsub eq_refl). congruence.
Qed.

(** X6: a port specification [ports] accepts is not empty and is made of
    digits, commas and dashes only. *)
Theorem accepted_ports_alphabet (spec : string) :
  validation.test Net.ports spec = true ->
  spec <> ""%string
  /\ Forall (fun c => port_char c = true) (list_ascii_of_string spec).
Proof.
  intros H. split.
  - intros ->. vm_compute in H. discriminate H.
  - unfold validation.test in H.
    apply (anchored_alphabet port_char Net.ports);
      [reflexivity | reflexivity | vm_compute; reflexivity | exact H].
Qed.

Lemma accepted_ports_alphabet_witness :
  validation.test Net.ports "10-30,80,443,3306-10000" = true
  /\ "10-30,80,443,3306-10000"%string <> ""%string
  /\ Forall (fun c => port_char c = true)
       (list_ascii_of_string "10-30,80,443,3306-10000").
Proof.
  assert (H : validation.test Net.ports "10-30,80,443,3306-10000" = true)
    by (vm_compute; reflexivity).
  split; [exact H |].
  exact (accepted_ports_alphabet "10-30,80,443,3306-10000" H).
Defined.

(** X7: an entry [IPv4] or [IPv4Range] accepts is made of digits, dots
    and dashes only: these two patterns are anchored at both ends. *)
Theorem ipv4_entries_alphabet (host : string) :
  validation.test Net.IPv4 host = true
  \/ validation.test Net.IPv4Range host = true ->
  Forall (fun c => ipv4_char c = true) (list_ascii_of_string host).
Proof.
  unfold validation.test. intros [H | H].
  - apply (anchored_alphabet ipv4_char Net.IPv4);
      [reflexivity | reflexivity | vm_compute; reflexivity | exact H].
  - apply (anchored_alphabet ipv4_char Net.IPv4Range);
      [reflexivity | reflexivity | vm_compute; reflexivity | exact H].
Qed.

Lemma ipv4_entries_alphabet_witness :
  (validation.test Net.IPv4 "10.0.0.1-20" = true
   \/ validation.test Net.IPv4Range "10.0.0.1-20" = true)
  /\ Forall (fun c => ipv4_char c = true) (list_ascii_of_string "10.0.0.1-20").
Proof.
  assert (H : validation.test Net.IPv4 "10.0.0.1-20" = true
              \/ validation.test Net.IPv4Range "10.0.0.1-20" = true)
    by (right; vm_compute; reflexivity).
  split; [exact H |].
  exact (ipv4_entries_alphabet "10.0.0.1-20" H).
Defined.

(** *** [validation.init] and [config.init] *)

Lemma host_errors_nil (range : list string) :
  host_errors range = []
  <-> forall host, In host range -> validation.verify host = inr true.
Proof.
  unfold host_errors. induction range as [|h range IH]; cbn [filter].
  - split; [intros _ host [] | reflexivity].
  - destruct (recognized h) eqn:Hh; cbn [negb map].
    + rewrite IH. split.
      * intros H host [<- | Hin].
        -- now rewrite verify_recognized, Hh.
        -- now apply H.
      * intros H host Hin. apply H. now right.
    + split; [discriminate |].
      intros H. specialize (H h (or_introl eq_refl)).
      rewrite verify_recognized, Hh in H. discriminate H.
Qed.

(** X8: [validation.init] passes exactly when the block size is at most
    128, the call is [discover] or the range is not empty and [verify]
    accepts each of its entries, and the port specification is empty or
    accepted by [ports]. *)
Theorem init_passes_iff
        (hasbin_sync fs_access : string -> bool) (opts : options) :
  validation.init hasbin_sync fs_access opts = inr true
  <-> (Opts.blocksize opts <= 128)%Z
      /\ (validation.test Net.discover (Opts.called opts) = true
          \/ (Opts.range opts <> []
              /\ forall host, In host (Opts.range opts) ->
                              validation.verify host = inr true))
      /\ (Opts.ports opts = ""%string
          \/ validation.test Net.ports (Opts.ports opts) = true).
Proof.
  rewrite init_collects.
  assert (Hnil : init_errors opts = []
                 <-> block_errors opts = [] /\ range_errors opts = []
                     /\ port_errors opts = []).
  { unfold init_errors. split.
    - intros H. apply app_eq_nil in H. destruct H as [H1 H].
      apply app_eq_nil in H. tauto.
    - intros [-> [-> ->]]. reflexivity. }
  assert (Hblock : block_errors opts = [] <-> (Opts.blocksize opts <= 128)%Z).
  { unfold block_errors. destruct (128 <? Opts.blocksize opts)%Z eqn:H.
    - apply Z.ltb_lt in H. split; [discriminate | lia].
    - apply Z.ltb_ge in H. tauto. }
  assert (Hrange : range_errors opts = []
                   <-> validation.test Net.discover (Opts.called opts) = true
                       \/ (Opts.range opts <> []
                           /\ forall host, In host (Opts.range opts) ->
                                           validation.verify host = inr true)).
  { unfold range_errors.
    destruct (validation.test Net.discover (Opts.called opts)).
    - split; [now left | reflexivity].
    - rewrite <- host_errors_nil.
      destruct (Opts.range opts) as [|h range].
      + cbn. split; [discriminate | intros [H | [H _]]; congruence].
      + cbn [app]. split.
        * intros H. right. split; [discriminate | exact H].
        * intros [H | [_ H]]; [discriminate | exact H]. }
  assert (Hport : port_errors opts = []
                  <-> Opts.ports opts = ""%string
                      \/ validation.test Net.ports (Opts.ports opts) = true).
  { unfold port_errors. destruct (String.eqb_spec (Opts.ports opts) "") as [E | E].
    - split; [now left | reflexivity].
    - destruct (validation.test Net.ports (Opts.ports opts)).
      + split; [now right | reflexivity].
      + split; [discriminate | intros [H | H]; [contradiction | discriminate]]. }
  rewrite <- Hblock, <- Hrange, <- Hport, <- Hnil.
  destruct (init_errors opts); split; congruence.
Qed.

Lemma recognized_classify (host : string) :
  recognized host = true <-> classify host <> Category.Invalid.
Proof.
  unfold recognized, classify.
  destruct (validation.test Net.hostname host),
    (validation.test Net.IPv4 host), (validation.test Net.IPv6 host),
    (validation.test Net.IPv4CIDR host), (validation.test Net.IPv6CIDR host),
    (validation.test Net.IPv4Range host);
    cbn; split; congruence.
Qed.

Lemma emitted_all (range : list string) :
  (forall host, In host range -> recognized host = true) ->
  cidr_entries range = [] ->
  emitted_unchanged range = range.
Proof.
  unfold emitted_unchanged, cidr_entries.
  induction range as [|h range IH]; intros Hall Hcidr; [reflexivity |].
  cbn [filter] in *.
  pose proof (proj1 (recognized_classify h) (Hall h (or_introl eq_refl))) as Hh.
  destruct (classify h); try discriminate Hcidr; try congruence;
    f_equal; apply IH; auto; intros host Hin; apply Hall; now right.
Qed.

Section ConfigFacts.

Variable hasbin_sync : string -> bool.
Variable fs_access : string -> bool.
Variable cidr_list : string -> list string.
Variable merge : list string -> list string -> list string.

(** X11: on a call that passes the validation of its range, a range
    without an IPv4 CIDR entry is the range of the settings, entry by
    entry and in order. *)
Theorem validated_hosts_pass_through
        (adapters : options -> option (list string)) (opts : options) :
  validation.test Net.discover (Opts.called opts) = false ->
  validation.init hasbin_sync fs_access opts = inr true ->
  cidr_entries (Opts.range opts) = [] ->
  config.init hasbin_sync fs_access cidr_list merge adapters opts
  = Some (config.Ready (Opts.with_range opts (Opts.range opts))).
Proof.
  intros Hd Hinit Hcidr. unfold config.init. rewrite Hinit, Hd.
  apply init_passes_iff in Hinit.
  destruct Hinit as [_ [[H | [_ Hall]] _]]; [congruence |].
  rewrite calculate_first_cidr. cbn [Opts.range Opts.with_range].
  rewrite Hcidr. cbn [bind].
  rewrite emitted_all; [reflexivity | | exact Hcidr].
  intros host Hin. specialize (Hall host Hin).
  rewrite verify_recognized in Hall.
  destruct (recognized host); [reflexivity | discriminate Hall].
Qed.

End ConfigFacts.

Lemma validated_hosts_pass_through_witness :
  let opts := scan_options ["example.com"; "10.0.0.1"; "10.0.0.5-9"] 16 "22" in
  let ok := fun _ : string => true in
  validation.test Net.discover (Opts.called opts) = false
  /\ validation.init ok ok opts = inr true
  /\ cidr_entries (Opts.range opts) = []
  /\ config.init ok ok cidr_list_sample (@app string) (fun _ => None) opts
     = Some (config.Ready (Opts.with_range opts (Opts.range opts))).
Proof.
  intros opts ok.
  assert (H1 : validation.test Net.discover (Opts.called opts) = false)
    by (vm_compute; reflexivity).
  assert (H2 : validation.init ok ok opts = inr true)
    by (vm_compute; reflexivity).
  assert (H3 : cidr_entries (Opts.range opts) = [])
    by (vm_compute; reflexivity).
  split; [exact H1 |]. split; [exact H2 |]. split; [exact H3 |].
  exact (validated_hosts_pass_through ok ok cidr_list_sample (@app string)
           (fun _ => None) opts H1 H2 H3).
Defined.

(** *** [network.calculate], [network.range] and [tools.chunk], further *)

Lemma splitat_of_nothing (blocksize : Z) : splitat 0 blocksize = 0%Z.
Proof.
  unfold splitat, round_div. cbn [Z.of_nat].
  rewrite Z.mul_0_r, Z.add_0_l.
  assert (Hz : (blocksize / (2 * blocksize) = 0)%Z).
  { destruct (Z.eq_dec blocksize 0) as [-> | Hb]; [reflexivity |].
    apply Z.div_small_iff; lia. }
  rewrite Hz. reflexivity.
Qed.

Lemma partition_nonempty (cidr_list : string -> list string)
      (opts : options) (host : string) :
  partition cidr_list opts host <> [].
Proof.
  unfold partition.
  remember (List.length (cidr_list host)) as n eqn:Hn.
  destruct (1 <? splitat n (Opts.blocksize opts))%Z eqn:Hg; [| discriminate].
  apply Z.ltb_lt in Hg. intros Hnil.
  apply map_eq_nil in Hnil.
  assert (Hlen : List.length
                   (pieces n (Z.to_nat (splitat n (Opts.blocksize opts)))
                      (cidr_list host)) = 0)
    by (rewrite Hnil; reflexivity).
  rewrite pieces_length, <- Hn in Hlen by lia.
  destruct n as [|n'].
  - rewrite splitat_of_nothing in Hg. lia.
  - rewrite ceil_div_step in Hlen by lia. discriminate Hlen.
Qed.

Section CalculateMore.

Variable cidr_list : string -> list string.
Variable merge : list string -> list string -> list string.

Lemma filter_recognized_emitted (range : list string) :
  emitted_unchanged (filter recognized range) = emitted_unchanged range.
Proof.
  unfold emitted_unchanged. induction range as [|h range IH]; [reflexivity |].
  cbn [filter]. destruct (recognized h) eqn:Hh.
  - cbn [filter]. rewrite IH. reflexivity.
  - assert (Hc : classify h = Category.Invalid).
    { destruct (classify h) eqn:Hc; try reflexivity;
        assert (Hr : recognized h = true)
          by (apply recognized_classify; congruence);
        congruence. }
    rewrite Hc. exact IH.
Qed.

Lemma filter_recognized_cidr (range : list string) :
  cidr_entries (filter recognized range) = cidr_entries range.
Proof.
  unfold cidr_entries. induction range as [|h range IH]; [reflexivity |].
  cbn [filter]. destruct (recognized h) eqn:Hh.
  - cbn [filter]. rewrite IH. reflexivity.
  - assert (Hc : classify h = Category.Invalid).
    { destruct (classify h) eqn:Hc; try reflexivity;
        assert (Hr : recognized h = true)
          by (apply recognized_classify; congruence);
        congruence. }
    rewrite Hc. exact IH.
Qed.

(** X12: the entries of a range that [verify] would refuse have no
    effect on the blocks of [network.calculate]: the result is that of
    the range without them. *)
Theorem calculate_drops_unrecognized (opts : options) :
  network.calculate cidr_list merge
    (Opts.with_range opts (filter recognized (Opts.range opts)))
  = network.calculate cidr_list merge opts.
Proof.
  rewrite !calculate_first_cidr. cbn [Opts.range Opts.with_range].
  rewrite filter_recognized_emitted, filter_recognized_cidr. reflexivity.
Qed.

(** X13: of the IPv4 CIDR entries of a range only the first one has a
    part in the blocks of [network.calculate]: two ranges with the same
    other entries and the same first CIDR entry give the same blocks. *)
Theorem calculate_reads_first_cidr_only
        (opts : options) (range1 range2 : list string) :
  emitted_unchanged range1 = emitted_unchanged range2 ->
  hd_error (cidr_entries range1) = hd_error (cidr_entries range2) ->
  network.calculate cidr_list merge (Opts.with_range opts range1)
  = network.calculate cidr_list merge (Opts.with_range opts range2).
Proof.
  intros He Hc. rewrite !calculate_first_cidr.
  cbn [Opts.range Opts.with_range]. rewrite He.
  destruct (cidr_entries range1), (cidr_entries range2);
    cbn [hd_error] in Hc; try discriminate Hc; [reflexivity |].
  injection Hc as ->. reflexivity.
Qed.

End CalculateMore.

Lemma calculate_reads_first_cidr_only_witness :
  let opts := scan_options [] 16 "22" in
  let range1 := ["10.0.0.0/30"; "example.com"; "10.0.1.0/30"] in
  let range2 := ["example.com"; "10.0.0.0/30"] in
  emitted_unchanged range1 = emitted_unchanged range2
  /\ hd_error (cidr_entries range1) = hd_error (cidr_entries range2)
  /\ network.calculate cidr_list_sample (@app string)
       (Opts.with_range opts range1)
     = network.calculate cidr_list_sample (@app string)
         (Opts.with_range opts range2).
Proof.
  intros opts range1 range2.
  assert (H1 : emitted_unchanged range1 = emitted_unchanged range2)
    by (vm_compute; reflexivity).
  assert (H2 : hd_error (cidr_entries range1) = hd_error (cidr_entries range2))
    by (vm_compute; reflexivity).
  split; [exact H1 |]. split; [exact H2 |].
  exact (calculate_reads_first_cidr_only cidr_list_sample (@app string) opts
           range1 range2 H1 H2).
Defined.

Section RangeMore.

Variable cidr_list : string -> list string.

(** X15: [network.range] returns for every enumeration and every block
    size, zero and negative ones too, and never the empty array: one
    block when the number in [splitat] is at most 1, and else the count
    of addresses divided by that number, rounded up. *)
Theorem range_returns_blocks (opts : options) (host : string) :
  let n := List.length (cidr_list host) in
  let g := splitat n (Opts.blocksize opts) in
  exists block blocks,
    network.range cidr_list opts host = Some (block :: blocks)
    /\ List.length (block :: blocks)
       = (if (1 <? g)%Z then ceil_div n (Z.to_nat g) else 1).
Proof.
  intros n g.
  pose proof (range_length cidr_list opts host) as Hlen.
  cbv zeta in Hlen. fold n g in Hlen.
  rewrite range_partition in *. cbn [option_map] in Hlen.
  injection Hlen as Hlen.
  pose proof (partition_nonempty cidr_list opts host) as Hne.
  destruct (partition cidr_list opts host) as [|block blocks];
    [congruence |].
  exists block, blocks. split; [reflexivity | exact Hlen].
Qed.

(** X17: when [network.range] cuts the enumeration, block [i] joins the
    addresses [i * splitat] to [i * splitat + splitat] of it: exactly
    [splitat] addresses for every block but the last, and at least one
    and at most that many for the last one. *)
Theorem range_block_sizes (opts : options) (host : string) :
  let n := List.length (cidr_list host) in
  let g := splitat n (Opts.blocksize opts) in
  (1 < g)%Z ->
  exists blocks,
    network.range cidr_list opts host = Some blocks
    /\ forall i block,
         nth_error blocks i = Some block ->
         let group :=
           slice (cidr_list host) (i * Z.to_nat g)
                 (i * Z.to_nat g + Z.to_nat g) in
         block = join " " group
         /\ 1 <= List.length group <= Z.to_nat g
         /\ (S i < List.length blocks -> List.length group = Z.to_nat g).
Proof.
  cbv zeta.
  pose proof (range_pieces cidr_list opts host) as Hr. cbv zeta in Hr.
  remember (List.length (cidr_list host)) as n eqn:Hn.
  remember (splitat n (Opts.blocksize opts)) as g eqn:Hgdef.
  intros Hg.
  replace (1 <? g)%Z with true in Hr by (symmetry; now apply Z.ltb_lt).
  eexists. split; [exact Hr |].
  intros i block Hi.
  rewrite nth_error_map in Hi.
  destruct (nth_error (pieces n (Z.to_nat g) (cidr_list host)) i)
    as [group |] eqn:Hgroup; [| discriminate Hi].
  injection Hi as <-.
  assert (Hpos : 0 < Z.to_nat g) by lia.
  assert (Hcount : List.length (pieces n (Z.to_nat g) (cidr_list host))
                   = ceil_div n (Z.to_nat g))
    by (rewrite pieces_length, <- Hn by lia; reflexivity).
  assert (Hi : i < ceil_div n (Z.to_nat g))
    by (rewrite <- Hcount; apply nth_error_Some; congruence).
  pose proof (pieces_nonempty n (Z.to_nat g) (cidr_list host) Hpos) as Hne.
  rewrite Forall_forall in Hne.
  specialize (Hne group (nth_error_In _ _ Hgroup)).
  apply pieces_nth in Hgroup.
  assert (Hslice : slice (cidr_list host) (i * Z.to_nat g)
                     (i * Z.to_nat g + Z.to_nat g) = group).
  { unfold slice. subst group. f_equal. lia. }
  rewrite Hslice.
  assert (Hlen : List.length group
                 = Nat.min (Z.to_nat g) (n - i * Z.to_nat g))
    by (subst group; now rewrite length_firstn, length_skipn, <- Hn).
  split; [reflexivity |]. split; [split |].
  - destruct group; [congruence | cbn; lia].
  - lia.
  - rewrite length_map, Hcount.
    intros Hnext. rewrite Hlen. apply Nat.min_l.
    unfold ceil_div in Hnext.
    assert (Hdiv : Z.to_nat g * ((n + Z.to_nat g - 1) / Z.to_nat g)
                   <= n + Z.to_nat g - 1)
      by (apply Nat.Div0.mul_div_le).
    nia.
Qed.

End RangeMore.

Lemma range_block_sizes_witness :
  let opts := scan_options ["10.0.0.0/24"] 16 "22" in
  let host := "10.0.0.0/24"%string in
  let n := List.length (cidr_list_sample host) in
  let g := splitat n (Opts.blocksize opts) in
  (1 < g)%Z
  /\ exists blocks,
       network.range cidr_list_sample opts host = Some blocks
       /\ forall i block,
            nth_error blocks i = Some block ->
            let group :=
              slice (cidr_list_sample host) (i * Z.to_nat g)
                    (i * Z.to_nat g + Z.to_nat g) in
            block = join " " group
            /\ 1 <= List.length group <= Z.to_nat g
            /\ (S i < List.length blocks -> List.length group = Z.to_nat g).
Proof.
  intros opts host n g.
  assert (H : (1 < g)%Z) by (vm_compute; reflexivity).
  split; [exact H |].
  exact (range_block_sizes cidr_list_sample opts host H).
Defined.

(** X18: [tools.chunk] with an offset of 0 on an array that is not empty
    never returns: the loop is still running after any number of
    turns. *)
Theorem chunk_offset_zero_never_returns
        (fuel : nat) (obj : list string) (idx : nat) (tarray : list string) :
  idx < List.length obj ->
  tools.chunk_loop fuel obj 0 idx tarray = None.
Proof.
  intros Hidx. revert tarray.
  induction fuel as [|fuel IH]; intros tarray; cbn [tools.chunk_loop];
    replace (idx <? List.length obj) with true
      by (symmetry; now apply Nat.ltb_lt).
  - reflexivity.
  - rewrite Nat.add_0_r. apply IH.
Qed.

Lemma chunk_offset_zero_never_returns_witness :
  0 < List.length ["10.0.0.1"%string]
  /\ tools.chunk_loop 1000 ["10.0.0.1"%string] 0 0 [] = None.
Proof.
  assert (H : 0 < List.length ["10.0.0.1"%string]) by (cbn; lia).
  split; [exact H |].
  exact (chunk_offset_zero_never_returns 1000 ["10.0.0.1"%string] 0 [] H).
Defined.

(** *** [tools.flatten], [tools.funcs] and [tools.adapters] *)

Lemma flatten_leaves (leaves : list string) (rest : list value)
      (result : list string) :
  (fix loop (items : list value) (result : list string) : list string :=
     match items with
     | [] => result
     | Leaf s :: rest => loop rest (result ++ [s])
     | (Nested _ as inner) :: _ => flatten_array inner
     end) (map Leaf leaves ++ rest) result
  = (fix loop (items : list value) (result : list string) : list string :=
       match items with
       | [] => result
       | Leaf s :: rest => loop rest (result ++ [s])
       | (Nested _ as inner) :: _ => flatten_array inner
       end) rest (result ++ leaves).
Proof.
  revert result. induction leaves as [|s leaves IH]; intros result.
  - cbn [map app]. now rewrite app_nil_r.
  - cbn [map app]. rewrite IH, <- app_assoc. reflexivity.
Qed.

(** X19: [tools.flatten] gives an array without arrays back as it is;
    on an array that holds an array it returns what it returns on the
    first such element, without the elements before it and after it. *)
Theorem flatten_keeps_first_nested_only
        (leaves : list string) (inner after : list value) :
  flatten (map Leaf leaves) = leaves
  /\ flatten (map Leaf leaves ++ Nested inner :: after) = flatten inner.
Proof.
  unfold flatten. cbn [flatten_array]. split.
  - rewrite <- (app_nil_r (map Leaf leaves)), flatten_leaves. reflexivity.
  - rewrite flatten_leaves. reflexivity.
Qed.

Lemma set_keys {V : Type} (o : object V) (key : string) (v : V) :
  keys (set o key v)
  = if existsb (String.eqb key) (keys o) then keys o else keys o ++ [key].
Proof.
  unfold keys. induction o as [|[k w] o IH]; [reflexivity |].
  cbn [set map fst existsb]. rewrite (String.eqb_sym key k).
  destruct (String.eqb k key); cbn [orb map fst]; [reflexivity |].
  rewrite IH. destruct (existsb (String.eqb key) (map fst o)); reflexivity.
Qed.

Lemma set_get {V : Type} (o : object V) (key : string) (v : V) (k : string) :
  get (set o key v) k = if String.eqb key k then Some v else get o k.
Proof.
  induction o as [|[k' w] o IH]; cbn [set get]; [reflexivity |].
  destruct (String.eqb_spec k' key) as [-> | Hne]; cbn [get].
  - destruct (String.eqb key k); reflexivity.
  - rewrite IH. destruct (String.eqb_spec k' k) as [-> | Hk];
      [| reflexivity].
    destruct (String.eqb_spec key k) as [-> | _]; [congruence | reflexivity].
Qed.

Lemma existsb_eqb_In (key : string) (l : list string) :
  existsb (String.eqb key) l = true <-> In key l.
Proof.
  rewrite existsb_exists. split.
  - intros [x [Hin Hx]]. apply String.eqb_eq in Hx. now subst.
  - intros Hin. exists key. split; [exact Hin | apply String.eqb_refl].
Qed.

Lemma funcs_fold (opts : options) (range : list string)
      (o : object string) :
  NoDup (keys o) ->
  (forall b, In b (keys o) -> get o b = Some (tools.command opts b)) ->
  let units :=
    fold_left
      (fun funcs range => assign funcs range (tools.command opts range))
      range o in
  NoDup (keys units)
  /\ (forall b, In b (keys units)
                <-> In b (keys o) \/ (In b range /\ b <> "__proto__"%string))
  /\ (forall b, In b (keys units) -> get units b = Some (tools.command opts b)).
Proof.
  revert o. induction range as [|r range IH]; intros o Hnd Hget; cbn [fold_left].
  - split; [exact Hnd |]. split; [| exact Hget].
    intros b. split; [now left | intros [H | [[] _]]; exact H].
  - destruct (String.eqb_spec r "__proto__") as [-> | Hr].
    + change (assign o "__proto__" (tools.command opts "__proto__")) with o.
      destruct (IH o Hnd Hget) as [H1 [H2 H3]].
      split; [exact H1 |]. split; [| exact H3].
      intros b. rewrite H2. split.
      * intros [H | [H Hb]]; [now left | right; split; [now right | exact Hb]].
      * intros [H | [[<- | H] Hb]]; [now left | congruence | now right].
    + replace (assign o r (tools.command opts r))
        with (set o r (tools.command opts r))
        by (unfold assign; apply String.eqb_neq in Hr; now rewrite Hr).
      assert (Hnd' : NoDup (keys (set o r (tools.command opts r)))).
      { rewrite set_keys.
        destruct (existsb (String.eqb r) (keys o)) eqn:He; [exact Hnd |].
        apply NoDup_app; [exact Hnd | repeat constructor; intros [] | ].
        intros x Hx [<- | []].
        apply existsb_eqb_In in Hx. congruence. }
      assert (Hkeys : forall b, In b (keys (set o r (tools.command opts r)))
                                <-> In b (keys o) \/ b = r).
      { intros b. rewrite set_keys.
        destruct (existsb (String.eqb r) (keys o)) eqn:He.
        - apply existsb_eqb_In in He. split; [now left |].
          intros [H | ->]; assumption.
        - rewrite in_app_iff. cbn [In]. intuition. }
      assert (Hget' : forall b,
                 In b (keys (set o r (tools.command opts r))) ->
                 get (set o r (tools.command opts r)) b
                 = Some (tools.command opts b)).
      { intros b Hb. rewrite set_get.
        destruct (String.eqb_spec r b) as [-> | Hne]; [reflexivity |].
        apply Hget. apply Hkeys in Hb. destruct Hb as [Hb | ->];
          [exact Hb | congruence]. }
      destruct (IH _ Hnd' Hget') as [H1 [H2 H3]].
      split; [exact H1 |]. split; [| exact H3].
      intros b. rewrite H2, Hkeys. split.
      * intros [[H | ->] | [H Hb]].
        -- now left.
        -- right. split; [now left | exact Hr].
        -- right. split; [now right | exact Hb].
      * intros [H | [[<- | H] Hb]].
        -- left. now left.
        -- left. now right.
        -- right. now split.
Qed.

(** X20: [tools.funcs] returns its error, as a value, exactly on an
    empty range; otherwise the object has one function under each
    distinct block of the range, the one that runs the command of that
    block: a block that occurs twice is scanned once, and [__proto__]
    gets no function. *)
Theorem funcs_units (opts : options) :
  match funcs opts with
  | inl e =>
      Opts.range opts = []
      /\ e = Error "Range of hosts could not be created"
  | inr units =>
      Opts.range opts <> []
      /\ NoDup (keys units)
      /\ (forall b, In b (keys units)
                    <-> In b (Opts.range opts) /\ b <> "__proto__"%string)
      /\ (forall b, In b (keys units) ->
                    get units b = Some (tools.command opts b))
  end.
Proof.
  unfold funcs. destruct (Opts.range opts) as [|r range] eqn:Hrange.
  - cbn. split; reflexivity.
  - cbn [List.length Nat.leb].
    destruct (funcs_fold opts (r :: range) [] (NoDup_nil _)
                (fun b (H : In b (keys [])) => match H with end))
      as [H1 [H2 H3]].
    split; [discriminate |]. split; [exact H1 |]. split; [| exact H3].
    intros b. rewrite H2. cbn [keys map In]. tauto.
Qed.

Section AdaptersFacts.

Variable netmask_parse : string -> option (string * string).
Variable v6_subnet : string.

Lemma devices_spec (devs : list adapter) (ret : list string) :
  let ext := filter (fun a => negb (internal a)) devs in
  match devices netmask_parse v6_subnet devs ret with
  | Returned ret' =>
      Forall (fun a => lacks_netmask a = false) ext
      /\ exists cidrs,
           ret' = ret ++ cidrs
           /\ map Some cidrs
              = map (fun a => adapter_cidr netmask_parse v6_subnet a
                                (mask_of a)) ext
  | ReturnedFalse => Exists (fun a => lacks_netmask a = true) ext
  | Thrown =>
      Exists (fun a =>
              validation.test Net.IPv6 (mask_of a) = false
              /\ netmask_parse (address a ++ "/" ++ mask_of a)%string = None)
        ext
  end.
Proof.
  cbv zeta. revert ret.
  induction devs as [|a devs IH]; intros ret; cbn [devices filter].
  - split; [constructor |]. exists []. now rewrite app_nil_r.
  - destruct (internal a) eqn:Hint; cbn [negb]; [apply IH |].
    destruct (netmask a) as [subnet |] eqn:Hmask.
    + destruct (String.eqb subnet "") eqn:Hempty.
      * apply Exists_cons_hd. unfold lacks_netmask. now rewrite Hmask.
      * destruct (adapter_cidr netmask_parse v6_subnet a subnet)
          as [cidr |] eqn:Hcidr.
        -- specialize (IH (ret ++ [cidr])).
           destruct (devices netmask_parse v6_subnet devs (ret ++ [cidr]))
             as [| | ret'].
           ++ now apply Exists_cons_tl.
           ++ now apply Exists_cons_tl.
           ++ destruct IH as [Hall [cidrs [-> Hmap]]]. split.
              ** constructor; [| exact Hall].
                 unfold lacks_netmask. now rewrite Hmask.
              ** exists (cidr :: cidrs). split; [now rewrite <- app_assoc |].
                 cbn [map]. unfold mask_of at 1. rewrite Hmask, Hcidr, Hmap.
                 reflexivity.
        -- apply Exists_cons_hd. unfold mask_of. rewrite Hmask.
           unfold adapter_cidr in Hcidr.
           destruct (validation.test Net.IPv6 subnet); [discriminate Hcidr |].
           split; [reflexivity |].
           destruct (netmask_parse (address a ++ "/" ++ subnet)%string)
             as [[base bitmask] |]; [discriminate Hcidr | reflexivity].
    + apply Exists_cons_hd. unfold lacks_netmask. now rewrite Hmask.
Qed.

(** X21: [tools.adapters] looks at the adapters that are not internal.
    When it returns an array, each of them has a netmask and the array
    has their CIDR strings, one for each and in order; it returns [false]
    only when one of them has no netmask, and throws only when the
    constructor of netmask does, on the address and the mask of one of
    them whose mask [IPv6] does not accept. *)
Theorem adapters_spec (ifaces : list (string * list adapter)) :
  match adapters netmask_parse v6_subnet ifaces with
  | Returned ret =>
      Forall (fun a => lacks_netmask a = false) (external_adapters ifaces)
      /\ map Some ret
         = map (fun a => adapter_cidr netmask_parse v6_subnet a (mask_of a))
               (external_adapters ifaces)
  | ReturnedFalse =>
      Exists (fun a => lacks_netmask a = true) (external_adapters ifaces)
  | Thrown =>
      Exists (fun a =>
                validation.test Net.IPv6 (mask_of a) = false
                /\ netmask_parse (address a ++ "/" ++ mask_of a)%string = None)
             (external_adapters ifaces)
  end.
Proof.
  unfold adapters, external_adapters.
  assert (Hgen : forall ret,
    match interfaces netmask_parse v6_subnet ifaces ret with
    | Returned ret' =>
        Forall (fun a => lacks_netmask a = false)
          (filter (fun a => negb (internal a)) (List.concat (map snd ifaces)))
        /\ exists cidrs,
             ret' = ret ++ cidrs
             /\ map Some cidrs
                = map (fun a => adapter_cidr netmask_parse v6_subnet a
                                  (mask_of a))
                      (filter (fun a => negb (internal a))
                         (List.concat (map snd ifaces)))
    | ReturnedFalse =>
        Exists (fun a => lacks_netmask a = true)
          (filter (fun a => negb (internal a)) (List.concat (map snd ifaces)))
    | Thrown =>
        Exists (fun a =>
              validation.test Net.IPv6 (mask_of a) = false
              /\ netmask_parse (address a ++ "/" ++ mask_of a)%string = None)
          (filter (fun a => negb (internal a)) (List.concat (map snd ifaces)))
    end).
  { induction ifaces as [|[name devs] ifaces' IH]; intros ret;
      cbn [interfaces map snd List.concat].
    - split; [constructor |]. exists []. now rewrite app_nil_r.
    - rewrite filter_app.
      pose proof (devices_spec devs ret) as Hd. cbv zeta in Hd.
      destruct (devices netmask_parse v6_subnet devs ret) as [| | ret1].
      + apply Exists_app. now left.
      + apply Exists_app. now left.
      + destruct Hd as [Hall1 [cidrs1 [-> Hmap1]]].
        specialize (IH (ret ++ cidrs1)).
        destruct (interfaces netmask_parse v6_subnet ifaces' (ret ++ cidrs1))
          as [| | ret2].
        * apply Exists_app. now right.
        * apply Exists_app. now right.
        * destruct IH as [Hall2 [cidrs2 [-> Hmap2]]]. split.
          -- apply Forall_app. now split.
          -- exists (cidrs1 ++ cidrs2). split; [now rewrite <- app_assoc |].
             now rewrite !map_app, Hmap1, Hmap2. }
  specialize (Hgen []).
  destruct (interfaces netmask_parse v6_subnet ifaces []);
    [exact Hgen | exact Hgen |].
  destruct Hgen as [Hall [cidrs [-> Hmap]]]. cbn [app]. now split.
Qed.

End AdaptersFacts.

(** *** The unit of a block, further *)

Section UnitMore.

Variable node : Type.
Variable parse_nmaprun : string -> string + node.

Lemma run_app (opts : options) (u : tools.unit_state node)
      (events events' : list tools.event) :
  tools.run node parse_nmaprun opts u (events ++ events')
  = tools.run node parse_nmaprun opts
      (tools.run node parse_nmaprun opts u events) events'.
Proof. unfold tools.run. apply fold_left_app. Qed.

Lemma run_collects (opts : options) (events : list tools.event)
      (u : tools.unit_state node) :
  ~ In tools.StdoutEnd events ->
  (forall err, ~ In (tools.Exit (Some err)) events) ->
  tools.report (tools.run node parse_nmaprun opts u events)
  = tools.report u ++ stdout_chunks events
  /\ tools.calls (tools.run node parse_nmaprun opts u events) = tools.calls u.
Proof.
  unfold tools.run. revert u.
  induction events as [|e events IH]; intros u Hend Hexit.
  - cbn. now rewrite app_nil_r.
  - assert (Hend' : ~ In tools.StdoutEnd events)
      by (intros H; apply Hend; now right).
    assert (Hexit' : forall err, ~ In (tools.Exit (Some err)) events)
      by (intros err H; apply (Hexit err); now right).
    cbn [fold_left].
    destruct e as [chunk | chunk | | [err |]]; cbn [tools.handle stdout_chunks].
    + destruct (IH {| tools.report := tools.report u ++ [chunk];
                      tools.calls := tools.calls u |} Hend' Hexit')
        as [Hr Hc].
      rewrite Hr, Hc. cbn. now rewrite <- app_assoc.
    + now apply IH.
    + elim Hend. now left.
    + elim (Hexit err). now left.
    + now apply IH.
Qed.

(** X22: a unit whose process writes chunks, ends its output and exits.
    The callback is called with the report of the chunks, in the order
    of their arrival, if there is any chunk, and then with the error if
    the process reports one: twice for a process that fails after it
    wrote, once with the exact concatenation of the chunks for one that
    succeeds when [json] is off. *)
Theorem unit_settles
        (opts : options) (range : string) (events : list tools.event)
        (exit : option reporting.exec_error) :
  ~ In tools.StdoutEnd events ->
  (forall err, ~ In (tools.Exit (Some err)) events) ->
  let chunks := stdout_chunks events in
  let u := tools.run node parse_nmaprun opts
             (snd (tools.block node opts range))
             (events ++ [tools.StdoutEnd; tools.Exit exit]) in
  tools.calls u
  = (match chunks with
     | [] => []
     | _ :: _ =>
         [reporting.reports node parse_nmaprun opts (reporting.Chunks chunks)]
     end)
    ++ (match exit with
        | Some err => [reporting.Err (Error (reporting.text err))]
        | None => []
        end)
  /\ (Opts.json opts = false -> chunks <> [] -> exit = None ->
      tools.calls u = [reporting.Ok (reporting.Xml (String.concat "" chunks))]).
Proof.
  intros Hend Hexit chunks u.
  assert (Hcalls :
    tools.calls u
    = (match chunks with
       | [] => []
       | _ :: _ =>
           [reporting.reports node parse_nmaprun opts (reporting.Chunks chunks)]
       end)
      ++ (match exit with
          | Some err => [reporting.Err (Error (reporting.text err))]
          | None => []
          end)).
  { unfold u. rewrite run_app.
    set (u0 := snd (tools.block node opts range)).
    destruct (run_collects opts events u0 Hend Hexit) as [Hr Hc].
    change (tools.report u0) with (@nil string) in Hr.
    change (tools.calls u0) with (@nil (reporting.completion node)) in Hc.
    cbn [app] in Hr. fold chunks in Hr.
    set (v := tools.run node parse_nmaprun opts u0 events) in *.
    unfold tools.run. cbn [fold_left tools.handle].
    rewrite Hr. destruct chunks as [|c chunks'];
      cbn [List.length Nat.ltb Nat.leb]; destruct exit as [err |];
      cbn [tools.calls tools.report reporting.reports]; rewrite Hc;
      reflexivity. }
  split; [exact Hcalls |].
  intros Hjson Hne ->. rewrite Hcalls.
  destruct chunks; [congruence |].
  cbn [reporting.reports app]. rewrite Hjson. reflexivity.
Qed.

(** X23: what a process writes on its standard error has no effect on
    its unit: a run gives the same report and the same calls of the
    callback without the [StderrData] events. *)
Theorem stderr_is_discarded
        (opts : options) (u : tools.unit_state node)
        (events : list tools.event) :
  tools.run node parse_nmaprun opts u (without_stderr events)
  = tools.run node parse_nmaprun opts u events.
Proof.
  unfold tools.run, without_stderr. revert u.
  induction events as [|e events IH]; intros u; [reflexivity |].
  cbn [filter fold_left].
  destruct e; cbn [fold_left]; try apply IH.
Qed.

End UnitMore.

Lemma unit_settles_witness :
  let opts :=
    Opts.mk "nmap" false "22" ["10.0.0.1"] 120 16 16 ["-oX -"] false false
            "getData" in
  let parse := fun _ : string => @inl string unit "no XML" in
  let events :=
    [tools.StdoutData "<nmaprun>"; tools.StderrData "warning";
     tools.StdoutData "</nmaprun>"] in
  let exit := Some {| reporting.code := 1; reporting.text := "failed" |} in
  ~ In tools.StdoutEnd events
  /\ (forall err, ~ In (tools.Exit (Some err)) events)
  /\ let chunks := stdout_chunks events in
     let u := tools.run unit parse opts (snd (tools.block unit opts "10.0.0.1"))
                (events ++ [tools.StdoutEnd; tools.Exit exit]) in
     tools.calls u
     = (match chunks with
        | [] => []
        | _ :: _ => [reporting.reports unit parse opts (reporting.Chunks chunks)]
        end)
       ++ (match exit with
           | Some err => [reporting.Err (Error (reporting.text err))]
           | None => []
           end)
     /\ (Opts.json opts = false -> chunks <> [] -> exit = None ->
         tools.calls u
         = [reporting.Ok (reporting.Xml (String.concat "" chunks))]).
Proof.
  intros opts parse events exit.
  assert (H1 : ~ In tools.StdoutEnd events)
    by (intros [H | [H | [H | []]]]; discriminate H).
  assert (H2 : forall err, ~ In (tools.Exit (Some err)) events)
    by (intros err [H | [H | [H | []]]]; discriminate H).
  split; [exact H1 |]. split; [exact H2 |].
  exact (unit_settles unit parse opts "10.0.0.1" events exit H1 H2).
Defined.

(** *** The flags *)

(** X24: after the step of [config.init] that adds [-oX -], the flag is
    among the flags; the flags of the caller are all there, in order and
    at the front; a second pass changes nothing; and the flag occurs as
    often as before, or once when it was missing. *)
Theorem ensure_xml_adds_once (flags : list string) :
  In "-oX -"%string (ensure_xml flags)
  /\ (exists added, ensure_xml flags = flags ++ added)
  /\ ensure_xml (ensure_xml flags) = ensure_xml flags
  /\ count_occ string_dec (ensure_xml flags) "-oX -"
     = Nat.max 1 (count_occ string_dec flags "-oX -").
Proof.
  unfold ensure_xml.
  destruct (existsb (String.eqb "-oX -") flags) eqn:He.
  - rewrite He. pose proof (proj1 (existsb_eqb_In _ _) He) as Hin.
    split; [exact Hin |]. split; [exists []; now rewrite app_nil_r |].
    split; [reflexivity |].
    apply (count_occ_In string_dec) in Hin. lia.
  - assert (Hin : In "-oX -"%string (flags ++ ["-oX -"%string]))
      by (apply in_or_app; right; now left).
    rewrite (proj2 (existsb_eqb_In _ _) Hin).
    split; [exact Hin |]. split; [now exists ["-oX -"%string] |].
    split; [reflexivity |].
    assert (Hno : ~ In "-oX -"%string flags).
    { intros H. apply existsb_eqb_In in H. congruence. }
    rewrite count_occ_app.
    rewrite (proj1 (count_occ_not_In string_dec flags "-oX -") Hno).
    cbn. destruct (string_dec "-oX -" "-oX -"); [reflexivity | congruence].
Qed.

(** X25: [typeof] never gives a string with [array] in it, so the test
    that guards the replacement of [defaults.flags] by the flags of the
    caller never holds. *)
Theorem flags_override_never_holds (t : js_type) :
  flags_override t = false.
Proof. destruct t; vm_compute; reflexivity. Qed.

(** X26: the settings [config.init] hands over for options that went
    through its first step always have [-oX -] among their flags, on a
    [scan] as on a [discover] call. *)
Theorem ready_settings_have_xml_flag
        (hasbin_sync fs_access : string -> bool)
        (cidr_list : string -> list string)
        (merge : list string -> list string -> list string)
        (adapters : options -> option (list string))
        (opts : options) (called : string) (settings : options) :
  config.init hasbin_sync fs_access cidr_list merge adapters
    (prepare opts called) = Some (config.Ready settings) ->
  In "-oX -"%string (Opts.flags settings).
Proof.
  unfold config.init.
  destruct (validation.init hasbin_sync fs_access (prepare opts called));
    [discriminate |].
  destruct (validation.test Net.discover (Opts.called (prepare opts called))).
  - destruct (adapters (prepare opts called)); [| discriminate].
    rewrite calculate_first_cidr. cbn [bind]. intros H.
    injection H as <-. cbn. tauto.
  - rewrite calculate_first_cidr. cbn [bind]. intros H.
    injection H as <-. cbn [Opts.flags Opts.with_range prepare].
    apply ensure_xml_adds_once.
Qed.

Lemma ready_settings_have_xml_flag_witness :
  let ok := fun _ : string => true in
  let opts := Opts.mk "nmap" false "22" ["10.0.0.1"] 120 16 16 ["-T4"]
                      false true "" in
  let settings := Opts.mk "nmap" false "22" ["10.0.0.1"] 120 16 16
                          ["-T4"; "-oX -"] false true "getData" in
  config.init ok ok cidr_list_sample (@app string) (fun _ => None)
    (prepare opts "getData") = Some (config.Ready settings)
  /\ In "-oX -"%string (Opts.flags settings).
Proof.
  intros ok opts settings.
  assert (H : config.init ok ok cidr_list_sample (@app string) (fun _ => None)
                (prepare opts "getData") = Some (config.Ready settings))
    by (vm_compute; reflexivity).
  split; [exact H |].
  exact (ready_settings_have_xml_flag ok ok cidr_list_sample (@app string)
           (fun _ => None) opts "getData" settings H).
Defined.
